(** * DeFi liquidity simulation: constant-product AMM, market environment
      and tabular Q-policy

    A shallow embedding of [amms.py], [environment.py] and [rl_utils.py],
    of the agents of [agents.py], of the price series of [data_utils.py]
    and of the price-trace loop of [main.py].

    The Python code computes on numbers through [+ - * / abs < <= == //]
    only, so every function is written once over a small numeric
    interface [Num] and read at two instances:

    - [float]: IEEE-754 binary64 with round-to-nearest-even, the
      arithmetic CPython executes;
    - [Qc]: the rationals, i.e. the same formulas in exact arithmetic.

    Numeric arguments and fields are numbers of the instance; the [int]
    literals the program mixes in ([0], [1], the bucket count) are
    converted with [of_int], as Python converts them before a float
    operation.

    Methods that mutate [self] take the object and return the result
    paired with the new object.  Where a method can raise a Python
    exception its result is an [option], and [None] is the exception.
    Python's [/] raises on a zero divisor; every division of these
    files sits behind a guard that excludes one (lemmas
    [get_price_divisor_nonzero] and [add_liquidity_divisor_nonzero], and
    the explicit [!= 0] tests of [swap]), so [/] is the total operation
    of the instance. *)

From Stdlib Require Import ZArith QArith Qcanon Qround Qabs Floats String Bool Lia.
From stdpp Require Import base option list gmap strings.

(* ================================================================== *)
(** ** Numbers *)

Class Num (F : Type) : Type := {
  fadd : F → F → F;
  fsub : F → F → F;
  fmul : F → F → F;
  fdiv : F → F → F;
  fabs : F → F;
  fltb : F → F → bool;
  fleb : F → F → bool;
  feqb : F → F → bool;
  (** conversion of a Python [int] *)
  of_int : Z → F;
  (** [int(x // y)]; [None] when Python raises *)
  floordiv_int : F → F → option Z
}.

Declare Scope num_scope.
Delimit Scope num_scope with num.
Infix "+" := fadd : num_scope.
Infix "-" := fsub : num_scope.
Infix "*" := fmul : num_scope.
Infix "/" := fdiv : num_scope.
Infix "<?" := fltb : num_scope.
Infix "<=?" := fleb : num_scope.
Infix "=?" := feqb : num_scope.

Section Literals.
Context {F : Type} `{Num F}.
Local Open Scope num_scope.

(** The decimal literal [m]e-[k].  Both [m] and [10^k] are exact in
    binary64 for the literals of this program, so the correctly rounded
    quotient is the value Python's parser gives the literal. *)
Definition dec (m : Z) (k : nat) : F := of_int m / of_int (10 ^ Z.of_nat k).

Definition zero : F := of_int 0.
Definition one : F := of_int 1.
(** [1e-12], the threshold under which a reserve counts as empty (the
    specification's epsilon; the name [epsilon] is the Q-policy's
    exploration rate) *)
Definition near_zero : F := dec 1 12.
(** [0.999] *)
Definition max_fraction : F := dec 999 3.
(** [0.02] *)
Definition bucket_size : F := dec 2 2.
(** [0.003], the default [fee_rate] *)
Definition default_fee_rate : F := dec 3 3.

(** Python's builtin [min(a, b)]: the first argument unless the second
    is strictly smaller. *)
Definition pymin (a b : F) : F := if b <? a then b else a.

Definition isnan (x : F) : bool := negb (x =? x).

(** [x - x == 0] singles out the finite numbers: on binary64 the
    difference is NaN for the infinities and for NaN. *)
Definition isfinite (x : F) : bool := x - x =? zero.

(** [np.maximum]: the left operand when it is [>=] the right one or a
    NaN. *)
Definition np_maximum (a b : F) : F := if (b <=? a) || isnan a then a else b.
End Literals.

(* ------------------------------------------------------------------ *)
(** *** binary64 *)

Module Binary64.
Local Open Scope Z_scope.

Definition of_Z (z : Z) : float := SF2Prim (binary_normalize prec emax z 0 false).

(** C's [fmod]: the exact remainder, with the sign of the dividend. *)
Definition SFfmod (x y : spec_float) : spec_float :=
  match x, y with
  | S754_nan, _ | _, S754_nan => S754_nan
  | S754_infinity _, _ => S754_nan
  | _, S754_zero _ => S754_nan
  | S754_zero _, _ => x
  | S754_finite _ _ _, S754_infinity _ => x
  | S754_finite sx mx ex, S754_finite _ my ey =>
      let e := Z.min ex ey in
      let r := (Zpos mx * 2 ^ (ex - e)) mod (Zpos my * 2 ^ (ey - e)) in
      if r =? 0 then S754_zero sx
      else binary_normalize prec emax (cond_Zopp sx r) e false
  end.

(** C's [floor]. *)
Definition SFfloor (x : spec_float) : spec_float :=
  match x with
  | S754_finite s m e =>
      if 0 <=? e then x
      else
        let q := cond_Zopp s (Zpos m) / 2 ^ (- e) in
        if q =? 0 then S754_zero s else binary_normalize prec emax q 0 false
  | _ => x
  end.

Definition fmod (x y : float) : float := SF2Prim (SFfmod (Prim2SF x) (Prim2SF y)).
Definition floor (x : float) : float := SF2Prim (SFfloor (Prim2SF x)).

Definition sign_bit (x : float) : bool :=
  match Prim2SF x with
  | S754_zero s | S754_infinity s | S754_finite s _ _ => s
  | S754_nan => false
  end.

(** [x // y] on floats, as CPython's [float_floor_div] computes it;
    [None] is [ZeroDivisionError]. *)
Definition floordiv (vx wx : float) : option float :=
  if (wx =? 0)%float then None
  else
    let md := fmod vx wx in
    let dv := ((vx - md) / wx)%float in
    let dv :=
      if negb (md =? 0)%float && negb (Bool.eqb (wx <? 0)%float (md <? 0)%float)
      then (dv - 1)%float else dv in
    Some (if negb (dv =? 0)%float
          then let fl := floor dv in
               if (0.5 <? dv - fl)%float then (fl + 1)%float else fl
          else if sign_bit (vx / wx)%float then (-0)%float else 0%float).

(** [int(x)] on a float: truncation; [None] for NaN ([ValueError]) and
    the infinities ([OverflowError]). *)
Definition to_int (x : float) : option Z :=
  match Prim2SF x with
  | S754_zero _ => Some 0
  | S754_finite s m e =>
      Some (cond_Zopp s (if 0 <=? e then Zpos m * 2 ^ e else Zpos m / 2 ^ (- e)))
  | _ => None
  end.
End Binary64.

#[export] Instance float_Num : Num float := {
  fadd := PrimFloat.add;
  fsub := PrimFloat.sub;
  fmul := PrimFloat.mul;
  fdiv := PrimFloat.div;
  fabs := PrimFloat.abs;
  fltb := PrimFloat.ltb;
  fleb := PrimFloat.leb;
  feqb := PrimFloat.eqb;
  of_int := Binary64.of_Z;
  floordiv_int x y := Binary64.floordiv x y ≫= Binary64.to_int
}.

(* ------------------------------------------------------------------ *)
(** *** exact rationals *)

Module Exact.
Definition ltb (x y : Qc) : bool :=
  match (x ?= y)%Qc with Lt => true | _ => false end.
Definition leb (x y : Qc) : bool :=
  match (x ?= y)%Qc with Gt => false | _ => true end.
Definition of_Z (z : Z) : Qc := Q2Qc (inject_Z z).
Definition abs (x : Qc) : Qc := Q2Qc (Qabs x).
Definition floordiv_int (x y : Qc) : option Z :=
  if Qc_eq_bool y 0 then None else Some (Qfloor (x / y)%Qc).
End Exact.

#[export] Instance Qc_Num : Num Qc := {
  fadd := Qcplus;
  fsub := Qcminus;
  fmul := Qcmult;
  fdiv := Qcdiv;
  fabs := Exact.abs;
  fltb := Exact.ltb;
  fleb := Exact.leb;
  feqb := Qc_eq_bool;
  of_int := Exact.of_Z;
  floordiv_int := Exact.floordiv_int
}.

(* ================================================================== *)
(** ** [amms.py]: the constant-product pool *)

Section AMM.
Context {F : Type} `{Num F}.
Local Open Scope num_scope.

(** The fields of a [ConstantProductAMM] object. *)
Record ConstantProductAMM : Type := mkAMM {
  fee_rate : F;
  reserveA : F;
  reserveB : F;
  K : F;
  liquidity_shares : F
}.

(** [ConstantProductAMM.__init__] *)
Definition new_amm (fee : F) : ConstantProductAMM :=
  {| fee_rate := fee; reserveA := zero; reserveB := zero; K := zero;
     liquidity_shares := zero |}.

(** [add_liquidity].  The two [ratio] locals of the source are never
    read (and their divisions are guarded), so they are left out. *)
Definition add_liquidity (self : ConstantProductAMM) (amount_tokenA amount_tokenB : F)
  : bool * ConstantProductAMM :=
  if (reserveA self <? near_zero) || (reserveB self <? near_zero) then
    (true,
     {| fee_rate := fee_rate self;
        reserveA := amount_tokenA;
        reserveB := amount_tokenB;
        K := amount_tokenA * amount_tokenB;
        liquidity_shares := liquidity_shares self + (amount_tokenA + amount_tokenB) |})
  else
    let rA := reserveA self + amount_tokenA in
    let rB := reserveB self + amount_tokenB in
    let denominator := rA - amount_tokenA in
    let shares_minted :=
      if fabs denominator <? near_zero then amount_tokenA + amount_tokenB
      else (liquidity_shares self * amount_tokenA) / denominator in
    (true,
     {| fee_rate := fee_rate self;
        reserveA := rA;
        reserveB := rB;
        K := rA * rB;
        liquidity_shares := liquidity_shares self + shares_minted |}).

(** [remove_liquidity]; the result [None] is Python's [None]. *)
Definition remove_liquidity (self : ConstantProductAMM) (fraction : F)
  : option (F * F) * ConstantProductAMM :=
  let fraction := pymin fraction max_fraction in
  if fraction <? zero then (None, self)
  else
    let amountA_out := reserveA self * fraction in
    let amountB_out := reserveB self * fraction in
    let rA := reserveA self - amountA_out in
    let rB := reserveB self - amountB_out in
    let shares_to_burn := liquidity_shares self * fraction in
    (Some (amountA_out, amountB_out),
     {| fee_rate := fee_rate self;
        reserveA := rA;
        reserveB := rB;
        K := rA * rB;
        liquidity_shares := liquidity_shares self - shares_to_burn |}).

(** The clamp [if amount_out < 0: amount_out = 0]. *)
Definition clamp0 (x : F) : F := if x <? zero then zero else x.

(** [swap]; any [direction] other than ["buy"] takes the sell branch. *)
Definition swap (self : ConstantProductAMM) (amount_in : F) (direction : string)
  : F * ConstantProductAMM :=
  if amount_in <=? zero then (zero, self)
  else if (reserveA self <? near_zero) || (reserveB self <? near_zero) then (zero, self)
  else
    let amount_in_after_fee := amount_in * (one - fee_rate self) in
    if String.eqb direction "buy" then
      let new_reserveB := reserveB self + amount_in_after_fee in
      let new_reserveA :=
        if negb (new_reserveB =? zero) then K self / new_reserveB else zero in
      (clamp0 (reserveA self - new_reserveA),
       {| fee_rate := fee_rate self;
          reserveA := new_reserveA;
          reserveB := new_reserveB;
          K := new_reserveA * new_reserveB;
          liquidity_shares := liquidity_shares self |})
    else
      let new_reserveA := reserveA self + amount_in_after_fee in
      let new_reserveB :=
        if negb (new_reserveA =? zero) then K self / new_reserveA else zero in
      (clamp0 (reserveB self - new_reserveB),
       {| fee_rate := fee_rate self;
          reserveA := new_reserveA;
          reserveB := new_reserveB;
          K := new_reserveA * new_reserveB;
          liquidity_shares := liquidity_shares self |}).

Definition get_price (self : ConstantProductAMM) : F :=
  if reserveA self <? near_zero then zero else reserveB self / reserveA self.

Definition total_liquidity_shares (self : ConstantProductAMM) : F :=
  liquidity_shares self.

(** One method call on a pool, with its arguments. *)
Inductive call : Type :=
| CallAddLiquidity (amount_tokenA amount_tokenB : F)
| CallRemoveLiquidity (fraction : F)
| CallSwap (amount_in : F) (direction : string)
| CallGetPrice
| CallTotalLiquidityShares.

(** The pool after one call (the call's result is dropped). *)
Definition perform (self : ConstantProductAMM) (c : call) : ConstantProductAMM :=
  match c with
  | CallAddLiquidity a b => snd (add_liquidity self a b)
  | CallRemoveLiquidity f => snd (remove_liquidity self f)
  | CallSwap a d => snd (swap self a d)
  | CallGetPrice => self
  | CallTotalLiquidityShares => self
  end.

Definition perform_all (self : ConstantProductAMM) (cs : list call) : ConstantProductAMM :=
  fold_left perform cs self.

(** The cache invariant: [K] is the product of the reserves. *)
Definition K_in_sync (self : ConstantProductAMM) : Prop :=
  K self = reserveA self * reserveB self.
End AMM.

Arguments ConstantProductAMM F : clear implicits.
Arguments call F : clear implicits.

(* ================================================================== *)
(** ** [environment.py]: the market environment *)

(** What the environment shows every agent at a tick: the dict with the
    keys ["amm_price"], ["reference_price"] and ["step"]. *)
Record env_state (F : Type) : Type := mkEnvState {
  amm_price : F;
  reference_price : F;
  step_index : nat
}.
Arguments mkEnvState {F}.
Arguments amm_price {F}.
Arguments reference_price {F}.
Arguments step_index {F}.

(** An action dict.  ["type"] is always read with [action["type"]]; the
    other keys may be missing, and reading a missing key with [action[k]]
    raises [KeyError]. *)
Record action (F : Type) : Type := mkAction {
  action_type : string;
  direction : option string;
  amount : option F;
  amount_tokenA : option F;
  amount_tokenB : option F
}.
Arguments mkAction {F}.
Arguments action_type {F}.
Arguments direction {F}.
Arguments amount {F}.
Arguments amount_tokenA {F}.
Arguments amount_tokenB {F}.

(** The capability [BaseAgent] declares: a name, and [act], which may
    change the agent. *)
Class Agent (F A : Type) : Type := {
  name : A → string;
  act : A → env_state F → action F * A
}.

Section Environment.
Context {F : Type} `{Num F} {A : Type} `{Agent F A}.
Local Open Scope num_scope.

Record MarketEnvironment : Type := mkEnv {
  amm : ConstantProductAMM F;
  agents : list A;
  reference_prices : list F;
  num_steps : nat;
  current_step : nat;
  rewards : gmap string F;
  total_volume_tokenA : F;
  total_volume_tokenB : F
}.

Definition with_amm (e : MarketEnvironment) (p : ConstantProductAMM F) :=
  mkEnv p (agents e) (reference_prices e) (num_steps e) (current_step e)
    (rewards e) (total_volume_tokenA e) (total_volume_tokenB e).
Definition with_agents (e : MarketEnvironment) (l : list A) :=
  mkEnv (amm e) l (reference_prices e) (num_steps e) (current_step e)
    (rewards e) (total_volume_tokenA e) (total_volume_tokenB e).
Definition with_current_step (e : MarketEnvironment) (n : nat) :=
  mkEnv (amm e) (agents e) (reference_prices e) (num_steps e) n
    (rewards e) (total_volume_tokenA e) (total_volume_tokenB e).
Definition with_rewards (e : MarketEnvironment) (r : gmap string F) :=
  mkEnv (amm e) (agents e) (reference_prices e) (num_steps e) (current_step e)
    r (total_volume_tokenA e) (total_volume_tokenB e).
Definition with_volumes (e : MarketEnvironment) (vA vB : F) :=
  mkEnv (amm e) (agents e) (reference_prices e) (num_steps e) (current_step e)
    (rewards e) vA vB.

(** [for agent in agents: self.rewards[agent.name] = 0.0] *)
Definition zero_rewards (l : list A) (r : gmap string F) : gmap string F :=
  foldl (λ r ag, <[name ag := zero]> r) r l.

(** [MarketEnvironment.__init__] *)
Definition new_env (p : ConstantProductAMM F) (l : list A) (prices : list F)
  : MarketEnvironment :=
  {| amm := p; agents := l; reference_prices := prices;
     num_steps := length prices; current_step := 0%nat;
     rewards := zero_rewards l ∅;
     total_volume_tokenA := zero; total_volume_tokenB := zero |}.

(** [reset] *)
Definition reset (e : MarketEnvironment) : MarketEnvironment :=
  {| amm := amm e; agents := agents e; reference_prices := reference_prices e;
     num_steps := num_steps e; current_step := 0%nat;
     rewards := zero_rewards (agents e) (rewards e);
     total_volume_tokenA := zero; total_volume_tokenB := zero |}.

(** [self.rewards[nm] += x]; [None] is the [KeyError] of the read. *)
Definition add_reward (e : MarketEnvironment) (nm : string) (x : F)
  : option MarketEnvironment :=
  r ← rewards e !! nm;
  Some (with_rewards e (<[nm := r + x]> (rewards e))).

(** The body of the loop "Execute actions" of [step], for the agent
    named [nm] whose action is [a]. *)
Definition execute (e : MarketEnvironment) (current_price : F) (nm : string)
    (a : action F) : option MarketEnvironment :=
  if String.eqb (action_type a) "trade" then
    let dir := default "buy"%string (direction a) in
    let amount_in := default zero (amount a) in
    if zero <? amount_in then
      let '(tokens_received, p) := swap (amm e) amount_in dir in
      let e := with_amm e p in
      if String.eqb dir "buy" then
        let cost_ref := amount_in in
        let value_ref := tokens_received * current_price in
        e ← add_reward e nm (value_ref - cost_ref);
        Some (with_volumes e (total_volume_tokenA e) (total_volume_tokenB e + amount_in))
      else
        let cost_ref := amount_in * current_price in
        let value_ref := tokens_received in
        e ← add_reward e nm (value_ref - cost_ref);
        Some (with_volumes e (total_volume_tokenA e + amount_in) (total_volume_tokenB e))
    else Some e
  else if String.eqb (action_type a) "add_liquidity" then
    amountA ← amount_tokenA a;
    amountB ← amount_tokenB a;
    if (zero <? amountA) && (zero <? amountB)
    then Some (with_amm e (snd (add_liquidity (amm e) amountA amountB)))
    else Some e
  else if String.eqb (action_type a) "remove_liquidity" then
    fractionA ← amount_tokenA a;
    fractionB ← amount_tokenB a;
    let fraction := pymin fractionA fractionB in
    let '(result, p) := remove_liquidity (amm e) fraction in
    let e := with_amm e p in
    match result with
    | Some (outA, outB) => add_reward e nm (outA * current_price + outB)
    | None => Some e
    end
  else Some e.

(** The loop "Collect agent actions": every agent acts on the same
    observation; the dict [actions] is keyed by agent name. *)
Definition collect (l : list A) (es : env_state F) : gmap string (action F) * list A :=
  foldl (λ '(actions, acted) ag,
           let '(a, ag') := act ag es in
           (<[name ag' := a]> actions, acted ++ [ag']))
        (∅, []) l.

(** The loop "Execute actions" over the agents, in order. *)
Fixpoint execute_all (actions : gmap string (action F)) (current_price : F)
    (l : list A) (e : MarketEnvironment) : option MarketEnvironment :=
  match l with
  | [] => Some e
  | ag :: l' =>
      a ← actions !! name ag;
      e ← execute e current_price (name ag) a;
      execute_all actions current_price l' e
  end.

(** [step]: the returned boolean is the method's result. *)
Definition step (e : MarketEnvironment) : option (bool * MarketEnvironment) :=
  if (num_steps e <=? current_step e)%nat then Some (false, e)
  else
    current_price ← reference_prices e !! current_step e;
    let es := mkEnvState (get_price (amm e)) current_price (current_step e) in
    let '(actions, l) := collect (agents e) es in
    e ← execute_all actions current_price l (with_agents e l);
    Some (true, with_current_step e (S (current_step e))).

(** [while self.step(): pass], unrolled at most [fuel] times; the outer
    [None] means the fuel ran out, the inner one that [step] raised. *)
Fixpoint run_loop (fuel : nat) (e : MarketEnvironment)
  : option (option MarketEnvironment) :=
  match fuel with
  | O => None
  | S fuel' =>
      match step e with
      | None => Some None
      | Some (false, e') => Some (Some e')
      | Some (true, e') => run_loop fuel' e'
      end
  end.

(** [run_simulation]: after [reset] the loop makes at most [num_steps]
    successful steps and one last call that returns [False]. *)
Definition run_simulation (e : MarketEnvironment) : option (option MarketEnvironment) :=
  run_loop (S (num_steps e)) (reset e).

Definition get_rewards (e : MarketEnvironment) : gmap string F := rewards e.
Definition get_current_step (e : MarketEnvironment) : nat := current_step e.
End Environment.

Arguments MarketEnvironment F A : clear implicits.

(** A stub agent that proposes the same action at every tick. *)
Record scripted (F : Type) : Type := mkScripted {
  scripted_name : string;
  scripted_action : action F
}.
Arguments mkScripted {F}.
Arguments scripted_name {F}.
Arguments scripted_action {F}.

#[export] Instance scripted_Agent (F : Type) : Agent F (scripted F) := {
  name := scripted_name;
  act ag _ := (scripted_action ag, ag)
}.

(* ================================================================== *)
(** ** [rl_utils.py]: the tabular Q-policy *)

Section QPolicy.
Context {F : Type} `{Num F}.
Local Open Scope num_scope.

(** The fields of a [SimpleQPolicy].  [q_table] is the array of shape
    [(num_price_buckets, num_time_buckets, 3)], as nested rows. *)
Record SimpleQPolicy : Type := mkPolicy {
  num_price_buckets : nat;
  num_time_buckets : nat;
  alpha : F;
  gamma : F;
  epsilon : F;
  q_table : list (list (list F));
  last_state : option (nat * nat);
  last_action : option nat
}.

(** [SimpleQPolicy.__init__]; seeding the generator has no counterpart
    here, the random draws being arguments of [select_action]. *)
Definition new_policy (P T : nat) (al ga ep : F) : SimpleQPolicy :=
  {| num_price_buckets := P; num_time_buckets := T;
     alpha := al; gamma := ga; epsilon := ep;
     q_table := replicate P (replicate T (replicate 3 zero));
     last_state := None; last_action := None |}.

Definition with_pending (self : SimpleQPolicy) (q : list (list (list F)))
    (s : option (nat * nat)) (a : option nat) : SimpleQPolicy :=
  {| num_price_buckets := num_price_buckets self;
     num_time_buckets := num_time_buckets self;
     alpha := alpha self; gamma := gamma self; epsilon := epsilon self;
     q_table := q; last_state := s; last_action := a |}.

(** [q[b, t, :]], [q[b, t, a]] and the assignment [q[b, t, a] = v];
    [None] is [IndexError]. *)
Definition q_row (q : list (list (list F))) (s : nat * nat) : option (list F) :=
  plane ← q !! s.1; plane !! s.2.
Definition q_get (q : list (list (list F))) (s : nat * nat) (a : nat) : option F :=
  row ← q_row q s; row !! a.
Definition q_set (q : list (list (list F))) (s : nat * nat) (a : nat) (v : F)
  : list (list (list F)) :=
  alter (alter (<[a := v]>) s.2) s.1 q.

(** [np.max] of a row: the fold of [np.maximum] from the first entry. *)
Definition np_max (row : list F) : option F :=
  match row with
  | [] => None
  | x :: row' => Some (foldl np_maximum x row')
  end.

(** [np.argmax] of a row: the first index whose entry is not [<=] the
    running maximum replaces it, and a NaN ends the scan. *)
Fixpoint argmax_from (mp : F) (best i : nat) (row : list F) : nat :=
  match row with
  | [] => best
  | x :: row' =>
      if negb (x <=? mp)
      then if isnan x then i else argmax_from x i (S i) row'
      else argmax_from mp best (S i) row'
  end.
Definition np_argmax (row : list F) : option nat :=
  match row with
  | [] => None
  | x :: row' => Some (if isnan x then 0%nat else argmax_from x 0%nat 1%nat row')
  end.

(** [_discretize_state]; [None] when [int(...)] or [%] raises. *)
Definition _discretize_state (self : SimpleQPolicy) (es : env_state F)
  : option (nat * nat) :=
  let price_diff := reference_price es - amm_price es in
  let P := Z.of_nat (num_price_buckets self) in
  bucket ← floordiv_int (price_diff + of_int P * bucket_size) bucket_size;
  let bucket := Z.max 0 (Z.min (P - 1) bucket) in
  if (num_time_buckets self =? 0)%nat then None
  else Some (Z.to_nat bucket, (step_index es mod num_time_buckets self)%nat).

Definition action_none : action F :=
  mkAction "none" None None (Some zero) (Some zero).
Definition action_add : action F :=
  mkAction "add_liquidity" None None (Some (of_int 10)) (Some (of_int 10)).
Definition action_remove : action F :=
  mkAction "remove_liquidity" None None (Some (dec 3 1)) (Some (dec 3 1)).

(** [select_action]; [u] is the value of [np.random.rand()] and [k] that
    of [np.random.randint(0, 3)] (drawn only when exploring). *)
Definition select_action (self : SimpleQPolicy) (u : F) (k : nat) (es : env_state F)
  : option (action F * SimpleQPolicy) :=
  s ← _discretize_state self es;
  a ← (if u <? epsilon self then Some k
       else row ← q_row (q_table self) s; np_argmax row);
  let self := with_pending self (q_table self) (Some s) (Some a) in
  Some (if (a =? 0)%nat then action_none
        else if (a =? 1)%nat then action_add
        else action_remove,
        self).

(** The learning target of [update_q]. *)
Definition q_target (self : SimpleQPolicy) (reward : F) (new_env_state : env_state F)
    (done : bool) : option F :=
  if done then Some reward
  else
    s_next ← _discretize_state self new_env_state;
    row ← q_row (q_table self) s_next;
    m ← np_max row;
    Some (reward + gamma self * m).

(** [update_q].  [last_state] and [last_action] are only ever assigned
    together, so a pending state without an action does not arise; it
    is mapped to [None]. *)
Definition update_q (self : SimpleQPolicy) (reward : F) (new_env_state : env_state F)
    (done : bool) : option SimpleQPolicy :=
  match last_state self with
  | None => Some self
  | Some s =>
      a ← last_action self;
      target ← q_target self reward new_env_state done;
      old ← q_get (q_table self) s a;
      Some (with_pending self
              (q_set (q_table self) s a (old + alpha self * (target - old)))
              None None)
  end.
End QPolicy.

Arguments SimpleQPolicy F : clear implicits.

(* ================================================================== *)
(** ** Laws shared by binary64 and exact arithmetic *)

(** The facts about comparisons and about subtracting from zero that the
    proofs below use; both instances satisfy them. *)
Class NumLaws (F : Type) `{Num F} : Prop := {
  leb_not_ltb (x y : F) : (x <=? y)%num = true → (y <? x)%num = false;
  ltb_not_leb (x y : F) : (x <? y)%num = true → (y <=? x)%num = false;
  ltb_not_eqb (x y : F) : (x <? y)%num = true → (y =? x)%num = false;
  ltb_asym (x y : F) : (x <? y)%num = true → (y <? x)%num = false;
  ltb_trans (x y z : F) :
    (x <? y)%num = true → (y <? z)%num = true → (x <? z)%num = true;
  zero_lt_near_zero : (zero <? near_zero)%num = true;
  zero_lt_max_fraction : (zero <? max_fraction)%num = true;
  mul_zero_zero : (zero * zero)%num = (zero : F);
  add_neg (r c : F) : (c =? zero)%num = false → (r + (zero - c))%num = (r - c)%num;
  zero_mul_sub (p c : F) :
    isfinite p = true → (c =? zero)%num = false →
    (zero * p - c)%num = (zero - c)%num;
  eqb_zero_ltb (x y : F) : (x =? zero)%num = true → (x <? y)%num = (zero <? y)%num;
  eqb_zero_abs (x : F) : (x =? zero)%num = true → (fabs x =? zero)%num = true
}.

(* ================================================================== *)
(** ** Concrete pools, environments and policies (binary64) *)

Module Scenario.
Local Open Scope float_scope.

(** A fresh pool with the default fee after [add_liquidity(1000, 1200)]. *)
Definition pool_1000_1200 : ConstantProductAMM float :=
  snd (add_liquidity (new_amm default_fee_rate) 1000 1200).

(** A pool whose fee rate lies outside [0, 1). *)
Definition pool_fee_2 : ConstantProductAMM float :=
  snd (add_liquidity (new_amm 2) 1 1).

(** A zero-fee pool holding (10, 10). *)
Definition pool_zero_fee : ConstantProductAMM float :=
  snd (add_liquidity (new_amm 0) 10 10).

(** A pool holding (1000, 1000). *)
Definition pool_1000_1000 : ConstantProductAMM float :=
  snd (add_liquidity (new_amm default_fee_rate) 1000 1000).

(** A fresh pool and one whose reserves were set to (0, 5). *)
Definition pool_empty : ConstantProductAMM float := new_amm default_fee_rate.
Definition pool_degenerate : ConstantProductAMM float :=
  snd (add_liquidity (new_amm default_fee_rate) 0 5).

Definition some_calls : list (call float) :=
  [CallAddLiquidity 1000 1200; CallSwap 100 "buy"; CallGetPrice;
   CallRemoveLiquidity (-1); CallSwap 0 "sell"; CallSwap 3 "sell";
   CallRemoveLiquidity 1; CallTotalLiquidityShares; CallAddLiquidity 5 7].

Definition remove_half : action float :=
  mkAction "remove_liquidity" None None (Some 0.5) (Some 0.5).
Definition buy_7 : action float :=
  mkAction "trade" (Some "buy"%string) (Some 7) None None.

(** One scripted agent on a pool holding (200, 300); the reference
    price at step 0 is 1.5. *)
Definition env_200_300 : MarketEnvironment float (scripted float) :=
  new_env (snd (add_liquidity (new_amm default_fee_rate) 200 300))
          [mkScripted "lp" remove_half] [1.5].

(** One scripted buyer on a degenerate pool. *)
Definition env_degenerate : MarketEnvironment float (scripted float) :=
  new_env pool_degenerate [mkScripted "trader" buy_7] [1.5; 1.5].

(** One scripted buyer on the pool (1000, 1200), two ticks. *)
Definition env_buyer : MarketEnvironment float (scripted float) :=
  new_env pool_1000_1200 [mkScripted "trader" buy_7] [1.5; 1.5].

(** The zero-fee pool holding (10, 10), in exact arithmetic. *)
Definition exact_pool_zero_fee : ConstantProductAMM Qc :=
  snd (add_liquidity (new_amm zero) (of_int 10) (of_int 10)).

(** [SimpleQPolicy()] with its default arguments. *)
Definition policy_5_10 : SimpleQPolicy float :=
  new_policy 5 10 (dec 1 1) (dec 95 2) (dec 1 1).
(** [policy_5_10] with the selection (state (4, 3), action 2) pending. *)
Definition policy_pending : SimpleQPolicy float :=
  with_pending policy_5_10 (q_table policy_5_10) (Some (4%nat, 3%nat)) (Some 2%nat).
Definition obs_1 : env_state float := mkEnvState (dec 12 1) (dec 123 2) 3.
Definition obs_2 : env_state float := mkEnvState (dec 12 1) (dec 119 2) 4.
End Scenario.

(* ================================================================== *)
(** ** [agents.py]: the heuristic agents *)

(** Unary minus, which [ArbitrageBot] uses besides the operations of
    [Num]. *)
Class Neg (F : Type) : Type := fneg : F → F.

#[export] Instance float_Neg : Neg float := PrimFloat.opp.
#[export] Instance Qc_Neg : Neg Qc := Qcopp.

Section Agents.
Context {F : Type} `{Num F} `{Neg F}.
Local Open Scope num_scope.

(** The dict [{"type": "none", "amount": 0.0}] of the two traders. *)
Definition trade_none : action F := mkAction "none" None (Some zero) None None.

(** [ArbitrageBot]: its fields, and [act].  The division by [amm_price]
    is behind the guard [amm_price < 1e-12]. *)
Record ArbitrageBot : Type := mkArbitrageBot {
  arb_name : string;
  arb_threshold : F;
  arb_max_trade_size : F
}.

Definition ArbitrageBot_act (self : ArbitrageBot) (es : env_state F) : action F :=
  if amm_price es <? near_zero then trade_none
  else
    let price_diff := reference_price es - amm_price es in
    let relative_diff := price_diff / amm_price es in
    if arb_threshold self <? relative_diff then
      mkAction "trade" (Some "buy"%string)
        (Some (pymin (arb_max_trade_size self) (fabs price_diff * of_int 10))) None None
    else if arb_threshold self <? fneg relative_diff then
      mkAction "trade" (Some "sell"%string)
        (Some (pymin (arb_max_trade_size self) (fabs price_diff * of_int 10))) None None
    else trade_none.

(** [RandomTrader].  The generator is an input: [rnd_draws n] holds what
    the [n]-th call of [act] draws, the value of the first
    [np.random.rand()], that of the second, and whether
    [np.random.choice] picks ["buy"]; [rnd_calls] counts the calls. *)
Record RandomTrader : Type := mkRandomTrader {
  rnd_name : string;
  rnd_max_trade_size : F;
  rnd_trade_prob : F;
  rnd_draws : nat → F * F * bool;
  rnd_calls : nat
}.

Definition RandomTrader_act (self : RandomTrader) (es : env_state F)
  : action F * RandomTrader :=
  let '(u, v, buy) := rnd_draws self (rnd_calls self) in
  let self' :=
    mkRandomTrader (rnd_name self) (rnd_max_trade_size self) (rnd_trade_prob self)
      (rnd_draws self) (S (rnd_calls self)) in
  if u <? rnd_trade_prob self then
    (mkAction "trade" (Some (if buy then "buy" else "sell")%string)
       (Some (v * rnd_max_trade_size self)) None None, self')
  else (trade_none, self').

(** [BasicLiquidityProvider]. *)
Record BasicLiquidityProvider : Type := mkBasicLiquidityProvider {
  blp_name : string;
  initial_liquidity : F;
  remove_threshold : F;
  has_provided : bool
}.

Definition BasicLiquidityProvider_act (self : BasicLiquidityProvider) (es : env_state F)
  : action F * BasicLiquidityProvider :=
  if negb (has_provided self) then
    let amount_B := initial_liquidity self * reference_price es in
    (mkAction "add_liquidity" None None (Some (initial_liquidity self)) (Some amount_B),
     mkBasicLiquidityProvider (blp_name self) (initial_liquidity self)
       (remove_threshold self) true)
  else if near_zero <? reference_price es then
    let price_diff := fabs (amm_price es - reference_price es) / reference_price es in
    if remove_threshold self <? price_diff then
      (mkAction "remove_liquidity" None None (Some (dec 5 1)) (Some (dec 5 1)), self)
    else (action_none, self)
  else (action_none, self).

(** [RLLiquidityProvider]: [act] is the policy's [select_action], with
    its random draws [u] and [k]; [None] when that raises. *)
Record RLLiquidityProvider : Type := mkRLLiquidityProvider {
  rl_name : string;
  policy : SimpleQPolicy F
}.

Definition RLLiquidityProvider_act (self : RLLiquidityProvider) (u : F) (k : nat)
    (es : env_state F) : option (action F * RLLiquidityProvider) :=
  '(a, p) ← select_action (policy self) u k es;
  Some (a, mkRLLiquidityProvider (rl_name self) p).

(** A roster entry that is one of the three heuristic agents. *)
Inductive heuristic : Type :=
| HArbitrage (b : ArbitrageBot)
| HRandom (r : RandomTrader)
| HBasic (l : BasicLiquidityProvider).

Definition heuristic_name (ag : heuristic) : string :=
  match ag with
  | HArbitrage b => arb_name b
  | HRandom r => rnd_name r
  | HBasic l => blp_name l
  end.

Definition heuristic_act (ag : heuristic) (es : env_state F) : action F * heuristic :=
  match ag with
  | HArbitrage b => (ArbitrageBot_act b es, HArbitrage b)
  | HRandom r => let '(a, r') := RandomTrader_act r es in (a, HRandom r')
  | HBasic l => let '(a, l') := BasicLiquidityProvider_act l es in (a, HBasic l')
  end.
End Agents.

Arguments ArbitrageBot F : clear implicits.
Arguments RandomTrader F : clear implicits.
Arguments BasicLiquidityProvider F : clear implicits.
Arguments RLLiquidityProvider F : clear implicits.
Arguments heuristic F : clear implicits.

#[export] Instance heuristic_Agent (F : Type) `{Num F} `{Neg F} : Agent F (heuristic F) := {
  name := heuristic_name;
  act := heuristic_act
}.

#[export] Instance BasicLiquidityProvider_Agent (F : Type) `{Num F}
  : Agent F (BasicLiquidityProvider F) := {
  name := blp_name;
  act := BasicLiquidityProvider_act
}.

Section Rosters.
Context {F : Type} `{Num F} {A : Type} `{Agent F A}.

(** The actions an agent proposes on a sequence of observations, one
    call of [act] per observation. *)
Fixpoint run_agent (ag : A) (obs : list (env_state F)) : list (action F) :=
  match obs with
  | [] => []
  | es :: obs' => let '(a, ag') := act ag es in a :: run_agent ag' obs'
  end.

(** The keys [step] reads with [action[k]] are present: the two amounts
    of a liquidity action. *)
Definition action_ok (a : action F) : bool :=
  if String.eqb (action_type a) "trade" then true
  else if String.eqb (action_type a) "add_liquidity"
          || String.eqb (action_type a) "remove_liquidity"
       then bool_decide (is_Some (amount_tokenA a)) && bool_decide (is_Some (amount_tokenB a))
       else true.

(** Every agent on the roster has an entry in the reward ledger. *)
Definition ledger_ok (e : MarketEnvironment F A) : Prop :=
  ∀ ag, ag ∈ agents e → is_Some (rewards e !! name ag).

(** [e'] differs from [e] at most in the pool's reserves, K and shares,
    the ledger and the volume counters. *)
Definition same_setup (e e' : MarketEnvironment F A) : Prop :=
  agents e' = agents e
  ∧ reference_prices e' = reference_prices e
  ∧ num_steps e' = num_steps e
  ∧ current_step e' = current_step e
  ∧ fee_rate (amm e') = fee_rate (amm e).

(** The ledgers of [e] and [e'] have the same keys, and agree outside
    the entry of [nm]. *)
Definition ledger_touched_at (nm : string) (e e' : MarketEnvironment F A) : Prop :=
  (∀ k, is_Some (rewards e' !! k) ↔ is_Some (rewards e !! k))
  ∧ (∀ k, k ≠ nm → rewards e' !! k = rewards e !! k).


(** What each agent of the roster returns from [act] on [es]. *)
Definition acts_on (l : list A) (es : env_state F) : list (action F * A) :=
  (λ ag, act ag es) <$> l.
End Rosters.

(* ================================================================== *)
(** ** [main.py] and [data_utils.py] *)

Section Main.
Context {F : Type} `{Num F}.
Local Open Scope num_scope.

(** The loop of [main] that builds the "dummy AMM price trace": the
    price of a fresh default pool, then the price after each
    [add_liquidity(1.0, p)] for [p] in [ref_prices]. *)
Fixpoint dummy_amm_loop (dummy_amm : ConstantProductAMM F) (ref_prices : list F) : list F :=
  match ref_prices with
  | [] => []
  | p :: ref_prices' =>
      let dummy_amm := snd (add_liquidity dummy_amm one p) in
      get_price dummy_amm :: dummy_amm_loop dummy_amm ref_prices'
  end.

Definition dummy_amm_trace (ref_prices : list F) : list F :=
  let dummy_amm := new_amm default_fee_rate in
  get_price dummy_amm :: dummy_amm_loop dummy_amm ref_prices.

(** [generate_synthetic_price_series].  [np.exp] is the parameter
    [fexp], and [shocks t] is the value [np.random.normal(0, 1)] draws at
    iteration [t].  The square [volatility ** 2] is the parameter
    [fsquare]: Python's float power raises [OverflowError] when the
    result overflows, which is [None]; it is evaluated in the loop body,
    hence only when there is a second price.  The result [None] is that
    error or the [IndexError] of [prices[0] = start_price] on an empty
    array. *)
Fixpoint price_path (fexp : F → F) (growth volatility : F) (shocks : nat → F)
    (t k : nat) (previous : F) : list F :=
  match k with
  | O => []
  | S k' =>
      let p := previous * fexp (growth + volatility * shocks t) in
      p :: price_path fexp growth volatility shocks (S t) k' p
  end.

Definition generate_synthetic_price_series (fexp : F → F) (fsquare : F → option F)
    (shocks : nat → F) (num_steps : nat) (start_price drift volatility : F)
  : option (list F) :=
  match num_steps with
  | O => None
  | S O => Some [start_price]
  | S n =>
      square ← fsquare volatility;
      Some (start_price ::
            price_path fexp (drift - dec 5 1 * square) volatility shocks
              1 n start_price)
  end.
End Main.

(* ================================================================== *)
(** ** Further notions used in the statements *)

Section Shapes.
Context {F : Type} `{Num F}.

(** The table has the shape [(num_price_buckets, num_time_buckets, 3)]. *)
Definition well_shaped (self : SimpleQPolicy F) : Prop :=
  length (q_table self) = num_price_buckets self
  ∧ Forall (λ plane, length plane = num_time_buckets self
                     ∧ Forall (λ row : list F, length row = 3%nat) plane)
           (q_table self).

(** The means of the non-empty prefixes of [prices], when [n] earlier
    prices summed to [s]: the first is [(s + p1) / (n + 1)]. *)
Fixpoint running_mean (n : Z) (s : F) (prices : list F) : list F :=
  match prices with
  | [] => []
  | p :: prices' =>
      fdiv (fadd s p) (of_int (n + 1)) :: running_mean (n + 1) (fadd s p) prices'
  end.
End Shapes.

(** Further laws of comparison that binary64 and exact arithmetic share. *)
Class OrderLaws (F : Type) `{Num F} : Prop := {
  ltb_leb (x y : F) : (x <? y)%num = true → (x <=? y)%num = true;
  eqb_leb (x y : F) : (x =? y)%num = true → (x <=? y)%num = true;
  zero_eqb_zero : ((zero : F) =? zero)%num = true
}.

(** The laws of comparison the scan of [np.argmax] rests on; NaN is the
    one number that is not [<=] itself. *)
Class ScanLaws (F : Type) `{Num F} : Prop := {
  scan_leb_refl (x : F) : isnan x = false → (x <=? x)%num = true;
  scan_leb_total (x y : F) :
    isnan x = false → isnan y = false → (x <=? y)%num = false → (y <? x)%num = true;
  scan_leb_ltb_trans (x y z : F) :
    (x <=? y)%num = true → (y <? z)%num = true → (x <? z)%num = true;
  scan_ltb_leb (x y : F) : (x <? y)%num = true → (x <=? y)%num = true
}.

(* ================================================================== *)
(** ** Further concrete inputs *)

Module Cases.
Definition exact_prices : list Qc := [of_int 2; of_int 4; of_int 9].

(** The three heuristic agents as [run_final_simulation] configures
    them; the random trader draws 0.25, 0.5, and buys on even calls. *)
Definition arb_bot : ArbitrageBot float :=
  mkArbitrageBot "ArbBot" (dec 2 3) 10%float.
Definition basic_lp : BasicLiquidityProvider float :=
  mkBasicLiquidityProvider "BasicLP" 500%float (dec 2 1) false.



(** A basic liquidity provider with 3 to deposit, and the environment
    it enters, in binary64. *)
Definition basic_lp_3 : BasicLiquidityProvider float :=
  mkBasicLiquidityProvider "BasicLP" 3%float (dec 2 1) false.
Definition env_fresh : MarketEnvironment float (BasicLiquidityProvider float) :=
  new_env (new_amm default_fee_rate) [basic_lp_3] [dec 1 1].
Definition obs_fresh : env_state float := mkEnvState 0%float (dec 1 1) 0.

(** A square that overflows the way Python's float power does: the
    product [x * x], and [OverflowError] when that is infinite while [x]
    is finite. *)
Definition square_or_overflow (x : float) : option float :=
  let r := (x * x)%float in
  if (abs r =? infinity)%float && negb (abs x =? infinity)%float then None
  else Some r.

(** Two scripted agents under one name. *)
Definition twins : list (scripted float) :=
  [mkScripted "twin" Scenario.buy_7; mkScripted "twin" Scenario.remove_half].

(** An [add_liquidity] action without its second amount, one of an
    unknown type, and a deposit of nothing. *)
Definition half_add : action float :=
  mkAction "add_liquidity" None None (Some 5%float) None.
Definition unknown_action : action float :=
  mkAction "stake" None (Some 5%float) None None.
Definition empty_add : action float :=
  mkAction "add_liquidity" None None (Some 0%float) (Some 5%float).

(** A [BasicLiquidityProvider] with 500 to deposit, an environment with
    a fresh pool, and the first observation, in exact arithmetic. *)
Definition exact_basic_lp : BasicLiquidityProvider Qc :=
  mkBasicLiquidityProvider "BasicLP" (of_int 500) (dec 2 1) false.
Definition exact_env_fresh : MarketEnvironment Qc (BasicLiquidityProvider Qc) :=
  new_env (new_amm default_fee_rate) [exact_basic_lp] [dec 12 1].
Definition exact_obs_fresh : env_state Qc := mkEnvState zero (dec 12 1) 0.

(** An [ArbitrageBot] and an observation where the pool is 20% cheaper
    than the market, in exact arithmetic. *)
Definition exact_arb_bot : ArbitrageBot Qc :=
  mkArbitrageBot "ArbBot" (dec 2 3) (of_int 10).
Definition exact_obs_cheap : env_state Qc := mkEnvState (of_int 1) (dec 12 1) 3.

(** A policy with one state whose actions are valued 1, 3, 3 and that
    never explores; an RL provider with the default policy. *)
Definition policy_trained : SimpleQPolicy float :=
  mkPolicy 1 1 (dec 1 1) (dec 95 2) 0%float [[[1%float; 3%float; 3%float]]] None None.
Definition rl_lp : RLLiquidityProvider float :=
  mkRLLiquidityProvider "RL_LP" Scenario.policy_5_10.

(** The same observation in binary64. *)
Definition obs_cheap : env_state float := mkEnvState 1%float (dec 12 1) 3.

Definition observations : list (env_state float) :=
  [mkEnvState 0%float (dec 12 1) 0; mkEnvState (dec 12 1) (dec 2 0) 1;
   mkEnvState (dec 12 1) (dec 12 1) 2].
End Cases.

(* ================================================================== *)
(** ** The laws at binary64 *)

Module Binary64Facts.
Local Open Scope Z_scope.

Lemma SFcompare_antisym (x y : spec_float) :
  SFcompare y x = option_map CompOpp (SFcompare x y).
Proof.
  destruct x as [sx|sx| |sx mx ex], y as [sy|sy| |sy my ey]; simpl;
    try (destruct sx); try (destruct sy); try reflexivity.
  all: rewrite (Z.compare_antisym ex ey); destruct (ex ?= ey); simpl; try reflexivity.
  all: change (Pos.compare_cont Eq my mx) with (Pos.compare my mx);
    change (Pos.compare_cont Eq mx my) with (Pos.compare mx my).
  all: rewrite (Pos.compare_antisym mx my), ?CompOpp_involutive; reflexivity.
Qed.

Lemma SFcompare_Lt_trans (x y z : spec_float) :
  SFcompare x y = Some Lt → SFcompare y z = Some Lt → SFcompare x z = Some Lt.
Proof.
  destruct x as [sx|sx| |sx mx ex], y as [sy|sy| |sy my ey], z as [sz|sz| |sz mz ez];
    simpl; try destruct sx; try destruct sy; try destruct sz; try congruence.
  all: repeat match goal with
         | |- context [Pos.compare_cont Eq ?a ?b] =>
             change (Pos.compare_cont Eq a b) with (Pos.compare a b)
         end.
  all: destruct (Z.compare_spec ex ey), (Z.compare_spec ey ez), (Z.compare_spec ex ez);
    try congruence; try lia.
  all: destruct (Pos.compare_spec mx my), (Pos.compare_spec my mz),
         (Pos.compare_spec mx mz); simpl; try congruence; try lia.
Qed.

Ltac by_compare x y :=
  rewrite ?FloatAxioms.ltb_spec, ?FloatAxioms.leb_spec, ?FloatAxioms.eqb_spec;
  unfold SFltb, SFleb, SFeqb;
  rewrite (SFcompare_antisym (Prim2SF x) (Prim2SF y));
  destruct (SFcompare (Prim2SF x) (Prim2SF y)) as [[]|]; simpl; congruence.

Lemma float_leb_not_ltb (x y : float) : (x <=? y)%float = true → (y <? x)%float = false.
Proof. by_compare x y. Qed.
Lemma float_ltb_not_leb (x y : float) : (x <? y)%float = true → (y <=? x)%float = false.
Proof. by_compare x y. Qed.
Lemma float_ltb_not_eqb (x y : float) : (x <? y)%float = true → (y =? x)%float = false.
Proof. by_compare x y. Qed.
Lemma float_ltb_asym (x y : float) : (x <? y)%float = true → (y <? x)%float = false.
Proof. by_compare x y. Qed.

Lemma float_ltb_trans (x y z : float) :
  (x <? y)%float = true → (y <? z)%float = true → (x <? z)%float = true.
Proof.
  rewrite !FloatAxioms.ltb_spec. unfold SFltb. intros Hxy Hyz.
  rewrite (SFcompare_Lt_trans (Prim2SF x) (Prim2SF y) (Prim2SF z)); [reflexivity| |].
  - destruct (SFcompare (Prim2SF x) (Prim2SF y)) as [[]|]; congruence.
  - destruct (SFcompare (Prim2SF y) (Prim2SF z)) as [[]|]; congruence.
Qed.

(** A number that is not [== 0] is not one of the two zeros. *)
Lemma not_zero (c : float) (s : bool) :
  (c =? 0)%float = false → Prim2SF c ≠ S754_zero s.
Proof.
  rewrite FloatAxioms.eqb_spec. intros Hc Hz. rewrite Hz in Hc. discriminate Hc.
Qed.

Lemma cond_Zopp_negb (s : bool) (m : Z) : cond_Zopp (negb s) m = - cond_Zopp s m.
Proof. destruct s; simpl; lia. Qed.

(** Subtracting a non-zero number from a zero negates it, whatever the
    sign of the zero. *)
Lemma SFsub_zero (s : bool) (c : spec_float) :
  (∀ s', c ≠ S754_zero s') → SF64sub (S754_zero s) c = SFopp c.
Proof.
  intros Hc. destruct c as [s'| | |]; try reflexivity. destruct (Hc s' eq_refl).
Qed.

Lemma SFadd_opp (r c : spec_float) :
  (∀ s', c ≠ S754_zero s') → SF64add r (SFopp c) = SF64sub r c.
Proof.
  intros Hc. destruct c as [s'|sc| |sc mc ec]; [destruct (Hc s' eq_refl)| | |].
  - destruct r as [sr|sr| |sr mr er]; try reflexivity. destruct sr, sc; reflexivity.
  - destruct r; reflexivity.
  - destruct r as [sr|sr| |sr mr er]; try reflexivity.
    unfold SF64add, SF64sub, SFadd, SFsub, SFopp.
    rewrite cond_Zopp_negb, Z.add_opp_r. reflexivity.
Qed.

Lemma float_add_neg (r c : float) :
  (c =? 0)%float = false → (r + (0 - c))%float = (r - c)%float.
Proof.
  intros Hc. apply Prim2SF_inj.
  rewrite add_spec, !sub_spec.
  change (Prim2SF 0) with (S754_zero false).
  rewrite SFsub_zero by (intros s'; apply not_zero, Hc).
  apply SFadd_opp. intros s'; apply not_zero, Hc.
Qed.

Lemma isfinite_cases (p : float) :
  (p - p =? 0)%float = true →
  (∃ s, Prim2SF p = S754_zero s) ∨ (∃ s m e, Prim2SF p = S754_finite s m e).
Proof.
  rewrite FloatAxioms.eqb_spec, sub_spec. change (Prim2SF 0) with (S754_zero false).
  destruct (Prim2SF p) as [s|s| |s m e]; eauto.
  - destruct s; discriminate.
  - discriminate.
Qed.

Lemma float_zero_mul_sub (p c : float) :
  (p - p =? 0)%float = true → (c =? 0)%float = false →
  (0 * p - c)%float = (0 - c)%float.
Proof.
  intros Hp Hc. apply Prim2SF_inj.
  rewrite !sub_spec, mul_spec. change (Prim2SF 0) with (S754_zero false).
  assert (Hz : ∃ s, SF64mul (S754_zero false) (Prim2SF p) = S754_zero s).
  { destruct (isfinite_cases p Hp) as [[s ->]|(s & m & e & ->)]; simpl; eauto. }
  destruct Hz as [s ->].
  rewrite !SFsub_zero by (intros s'; apply not_zero, Hc). reflexivity.
Qed.

(** A number that is [== 0] is one of the two zeros. *)
Lemma eqb_zero_cases (x : float) :
  (x =? 0)%float = true → ∃ s, Prim2SF x = S754_zero s.
Proof.
  rewrite FloatAxioms.eqb_spec. change (Prim2SF 0) with (S754_zero false).
  destruct (Prim2SF x) as [s|s| |s m e]; eauto; try discriminate.
  - destruct s; discriminate.
  - destruct s; discriminate.
Qed.

Lemma float_eqb_zero_ltb (x y : float) :
  (x =? 0)%float = true → (x <? y)%float = (0 <? y)%float.
Proof.
  intros Hx. destruct (eqb_zero_cases x Hx) as [s Hs].
  rewrite !FloatAxioms.ltb_spec, Hs. change (Prim2SF 0) with (S754_zero false).
  destruct (Prim2SF y); reflexivity.
Qed.

Lemma float_eqb_zero_abs (x : float) :
  (x =? 0)%float = true → (abs x =? 0)%float = true.
Proof.
  intros Hx. destruct (eqb_zero_cases x Hx) as [s Hs].
  rewrite FloatAxioms.eqb_spec, abs_spec, Hs. reflexivity.
Qed.

(** The decimal literals of the program, as [float.hex] prints them. *)
Example literals_binary64 :
  (near_zero : float) = 0x1.19799812dea11p-40%float
  ∧ (max_fraction : float) = 0x1.ff7ced916872bp-1%float
  ∧ (bucket_size : float) = 0x1.47ae147ae147bp-6%float
  ∧ (default_fee_rate : float) = 0x1.89374bc6a7efap-9%float
  ∧ (one - default_fee_rate)%num = (dec 997 3 : float).
Proof. repeat split; reflexivity. Qed.

(** [int(x // 0.02)] at a few arguments, as CPython evaluates it. *)
Example floordiv_int_binary64 :
  floordiv_int (dec 13 2 : float) bucket_size = Some 6
  ∧ floordiv_int (- dec 13 2)%float bucket_size = Some (-7)
  ∧ floordiv_int (dec 1 1 : float) bucket_size = Some 5
  ∧ floordiv_int (dec 12 2 : float) bucket_size = Some 5
  ∧ floordiv_int (-0)%float bucket_size = Some 0
  ∧ floordiv_int infinity bucket_size = None
  ∧ floordiv_int nan bucket_size = None
  ∧ floordiv_int 1%float 0%float = None.
Proof. repeat split; vm_compute; reflexivity. Qed.
End Binary64Facts.

#[export] Instance float_NumLaws : NumLaws float.
Proof.
  split.
  - exact Binary64Facts.float_leb_not_ltb.
  - exact Binary64Facts.float_ltb_not_leb.
  - exact Binary64Facts.float_ltb_not_eqb.
  - exact Binary64Facts.float_ltb_asym.
  - exact Binary64Facts.float_ltb_trans.
  - reflexivity.
  - reflexivity.
  - reflexivity.
  - exact Binary64Facts.float_add_neg.
  - exact Binary64Facts.float_zero_mul_sub.
  - exact Binary64Facts.float_eqb_zero_ltb.
  - exact Binary64Facts.float_eqb_zero_abs.
Qed.

(* ================================================================== *)
(** ** The laws in exact arithmetic *)

Module ExactFacts.
Lemma ltb_lt (x y : Qc) : Exact.ltb x y = true ↔ (x < y)%Qc.
Proof.
  unfold Exact.ltb. rewrite Qclt_alt. destruct (Qccompare x y); split; congruence.
Qed.

Lemma leb_le (x y : Qc) : Exact.leb x y = true ↔ (x <= y)%Qc.
Proof.
  unfold Exact.leb. rewrite Qcle_alt. destruct (Qccompare x y); split; congruence.
Qed.

Lemma ltb_ge (x y : Qc) : Exact.ltb x y = false ↔ (y <= x)%Qc.
Proof.
  rewrite <- not_true_iff_false, ltb_lt. split.
  - apply Qcnot_lt_le.
  - apply Qcle_not_lt.
Qed.

Lemma leb_gt (x y : Qc) : Exact.leb x y = false ↔ (y < x)%Qc.
Proof.
  rewrite <- not_true_iff_false, leb_le. split.
  - apply Qcnot_le_lt.
  - apply Qclt_not_le.
Qed.

Lemma eqb_eq (x y : Qc) : Qc_eq_bool x y = true ↔ x = y.
Proof.
  split; [apply Qc_eq_bool_correct|].
  intros ->. unfold Qc_eq_bool.
  destruct (Qcanon.Qc_eq_dec y y); [reflexivity|congruence].
Qed.

Lemma eqb_neq (x y : Qc) : Qc_eq_bool x y = false ↔ x ≠ y.
Proof. rewrite <- not_true_iff_false, eqb_eq. reflexivity. Qed.

Lemma zero_is_0 : (zero : Qc) = 0%Qc.
Proof. apply Qc_is_canon. reflexivity. Qed.

Lemma one_is_1 : (one : Qc) = 1%Qc.
Proof. apply Qc_is_canon. reflexivity. Qed.
End ExactFacts.

#[export] Instance Qc_NumLaws : NumLaws Qc.
Proof.
  split; cbn [fleb fltb feqb fadd fsub fmul fabs Qc_Num].
  - intros x y. rewrite ExactFacts.leb_le, ExactFacts.ltb_ge. auto.
  - intros x y. rewrite ExactFacts.ltb_lt, ExactFacts.leb_gt. auto.
  - intros x y. rewrite ExactFacts.ltb_lt, ExactFacts.eqb_neq.
    intros Hlt ->. exact (Qclt_not_le _ _ Hlt (Qcle_refl _)).
  - intros x y. rewrite ExactFacts.ltb_lt, ExactFacts.ltb_ge. apply Qclt_le_weak.
  - intros x y z. rewrite !ExactFacts.ltb_lt. apply Qclt_trans.
  - reflexivity.
  - reflexivity.
  - rewrite ExactFacts.zero_is_0. ring.
  - intros r c _. rewrite ExactFacts.zero_is_0. ring.
  - intros p c _ _. rewrite ExactFacts.zero_is_0. ring.
  - intros x y Hx. apply ExactFacts.eqb_eq in Hx. rewrite Hx. reflexivity.
  - intros x Hx. apply ExactFacts.eqb_eq in Hx. rewrite Hx. reflexivity.
Qed.

(* ================================================================== *)
(** ** The pool: what each method does *)

Section AMMFacts.
Context {F : Type} `{NumLaws F}.
Local Open Scope num_scope.

Lemma max_fraction_not_neg : (max_fraction <? (zero : F)) = false.
Proof. apply ltb_asym, zero_lt_max_fraction. Qed.

(** Both guards of [swap] are passed. *)
Lemma swap_guards (self : ConstantProductAMM F) (amount_in : F) :
  (near_zero <=? reserveA self) = true →
  (near_zero <=? reserveB self) = true →
  (zero <? amount_in) = true →
  (amount_in <=? zero) = false ∧
  (reserveA self <? near_zero) || (reserveB self <? near_zero) = false.
Proof.
  intros HA HB Hin. split.
  - apply ltb_not_leb, Hin.
  - rewrite (leb_not_ltb _ _ HA), (leb_not_ltb _ _ HB). reflexivity.
Qed.

Lemma swap_buy_unfold (self : ConstantProductAMM F) (amount_in : F) :
  (near_zero <=? reserveA self) = true →
  (near_zero <=? reserveB self) = true →
  (zero <? amount_in) = true →
  let new_reserveB := reserveB self + amount_in * (one - fee_rate self) in
  let new_reserveA :=
    if new_reserveB =? zero then zero else K self / new_reserveB in
  swap self amount_in "buy" =
    (clamp0 (reserveA self - new_reserveA),
     {| fee_rate := fee_rate self; reserveA := new_reserveA;
        reserveB := new_reserveB; K := new_reserveA * new_reserveB;
        liquidity_shares := liquidity_shares self |}).
Proof.
  intros HA HB Hin. destruct (swap_guards self amount_in HA HB Hin) as [G1 G2].
  unfold swap. rewrite G1, G2. simpl.
  destruct (_ =? zero); reflexivity.
Qed.

Lemma swap_sell_unfold (self : ConstantProductAMM F) (amount_in : F) (dir : string) :
  (near_zero <=? reserveA self) = true →
  (near_zero <=? reserveB self) = true →
  (zero <? amount_in) = true →
  String.eqb dir "buy" = false →
  let new_reserveA := reserveA self + amount_in * (one - fee_rate self) in
  let new_reserveB :=
    if new_reserveA =? zero then zero else K self / new_reserveA in
  swap self amount_in dir =
    (clamp0 (reserveB self - new_reserveB),
     {| fee_rate := fee_rate self; reserveA := new_reserveA;
        reserveB := new_reserveB; K := new_reserveA * new_reserveB;
        liquidity_shares := liquidity_shares self |}).
Proof.
  intros HA HB Hin Hdir. destruct (swap_guards self amount_in HA HB Hin) as [G1 G2].
  unfold swap. rewrite G1, G2, Hdir. simpl.
  destruct (_ =? zero); reflexivity.
Qed.

(** The divisors of [get_price] and [add_liquidity] are not zero. *)
Lemma get_price_divisor_nonzero (self : ConstantProductAMM F) :
  (reserveA self <? near_zero) = false → (reserveA self =? zero) = false.
Proof.
  intros Hguard. destruct (reserveA self =? zero) eqn:Hz; [|reflexivity].
  rewrite (eqb_zero_ltb _ near_zero Hz), zero_lt_near_zero in Hguard.
  discriminate Hguard.
Qed.

Lemma add_liquidity_divisor_nonzero (denominator : F) :
  (fabs denominator <? near_zero) = false → (denominator =? zero) = false.
Proof.
  intros Hguard. destruct (denominator =? zero) eqn:Hz; [|reflexivity].
  rewrite (eqb_zero_ltb _ near_zero (eqb_zero_abs _ Hz)), zero_lt_near_zero in Hguard.
  discriminate Hguard.
Qed.


(** Every method keeps the cache [K] in step with the reserves. *)
Lemma add_liquidity_K (self : ConstantProductAMM F) (a b : F) :
  K_in_sync (snd (add_liquidity self a b)).
Proof.
  unfold add_liquidity, K_in_sync.
  destruct (_ || _); reflexivity.
Qed.

Lemma remove_liquidity_K (self : ConstantProductAMM F) (f : F) :
  K_in_sync self → K_in_sync (snd (remove_liquidity self f)).
Proof.
  unfold remove_liquidity, K_in_sync. intros HK.
  destruct (_ <? zero); [exact HK | reflexivity].
Qed.

Lemma swap_K (self : ConstantProductAMM F) (amount_in : F) (dir : string) :
  K_in_sync self → K_in_sync (snd (swap self amount_in dir)).
Proof.
  unfold swap, K_in_sync. intros HK.
  destruct (_ <=? zero); [exact HK|].
  destruct (_ || _); [exact HK|].
  destruct (String.eqb dir "buy"); reflexivity.
Qed.

Lemma perform_K (self : ConstantProductAMM F) (c : call F) :
  K_in_sync self → K_in_sync (perform self c).
Proof.
  destruct c; simpl; auto using add_liquidity_K, remove_liquidity_K, swap_K.
Qed.

Lemma new_amm_K (fee : F) : K_in_sync (new_amm fee).
Proof. unfold K_in_sync, new_amm. simpl. symmetry. apply mul_zero_zero. Qed.

(** [remove_liquidity] on a negative and on a non-negative fraction. *)
Lemma remove_liquidity_negative (self : ConstantProductAMM F) (f : F) :
  (f <? zero) = true → remove_liquidity self f = (None, self).
Proof.
  intros Hf. unfold remove_liquidity, pymin.
  destruct (max_fraction <? f) eqn:Hm.
  - pose proof (ltb_trans _ _ _ Hm Hf) as Hneg.
    rewrite max_fraction_not_neg in Hneg. discriminate Hneg.
  - rewrite Hf. reflexivity.
Qed.

Lemma pymin_max_fraction_not_neg (f : F) :
  (zero <=? f) = true → (pymin f max_fraction <? zero) = false.
Proof.
  intros Hf. unfold pymin. destruct (max_fraction <? f).
  - apply max_fraction_not_neg.
  - apply leb_not_ltb, Hf.
Qed.

Lemma remove_liquidity_nonnegative (self : ConstantProductAMM F) (f : F) :
  (zero <=? f) = true →
  let g := pymin f max_fraction in
  remove_liquidity self f =
    (Some (reserveA self * g, reserveB self * g),
     {| fee_rate := fee_rate self;
        reserveA := reserveA self - reserveA self * g;
        reserveB := reserveB self - reserveB self * g;
        K := (reserveA self - reserveA self * g) * (reserveB self - reserveB self * g);
        liquidity_shares := liquidity_shares self - liquidity_shares self * g |}).
Proof.
  intros Hf g. unfold remove_liquidity. fold g.
  unfold g. rewrite (pymin_max_fraction_not_neg f Hf). reflexivity.
Qed.

(** The first deposit into an empty pool sets the reserves. *)
Lemma add_liquidity_empty (self : ConstantProductAMM F) (a b : F) :
  reserveA self = zero →
  add_liquidity self a b =
    (true,
     {| fee_rate := fee_rate self; reserveA := a; reserveB := b; K := a * b;
        liquidity_shares := liquidity_shares self + (a + b) |}).
Proof.
  intros HA. unfold add_liquidity. rewrite HA, zero_lt_near_zero. reflexivity.
Qed.
End AMMFacts.

(** In exact arithmetic a fee rate below 1 keeps the reserve that
    receives the input strictly positive. *)
Lemma exact_post_fee_reserve_pos (r a f : Qc) :
  (0 < r)%Qc → (0 < a)%Qc → (f < 1)%Qc → (0 < r + a * (1 - f))%Qc.
Proof.
  intros Hr Ha Hf.
  apply Qclt_le_trans with r; [exact Hr|].
  rewrite <- (Qcplus_0_r r) at 1.
  apply Qcplus_le_compat; [apply Qcle_refl|].
  apply Qclt_le_weak.
  rewrite <- (Qcmult_0_l (1 - f)).
  apply Qcmult_lt_compat_r; [|exact Ha].
  apply Qclt_minus_iff in Hf. exact Hf.
Qed.

Lemma exact_post_fee_reserve_nonzero (r a f : Qc) :
  (near_zero <=? r)%num = true → (zero <? a)%num = true → (f <? one)%num = true →
  (r + a * (one - f) =? zero)%num = false.
Proof.
  cbn [fleb fltb feqb fadd fsub fmul Qc_Num].
  rewrite ExactFacts.leb_le, !ExactFacts.ltb_lt, ExactFacts.eqb_neq.
  rewrite ExactFacts.zero_is_0, ExactFacts.one_is_1.
  intros Hr Ha Hf Hz.
  assert (H0 : (0 < near_zero)%Qc).
  { apply ExactFacts.ltb_lt. rewrite <- ExactFacts.zero_is_0. exact (zero_lt_near_zero (F := Qc)). }
  pose proof (exact_post_fee_reserve_pos r a f (Qclt_le_trans _ _ _ H0 Hr) Ha Hf) as Hpos.
  rewrite Hz in Hpos. exact (Qclt_not_le _ _ Hpos (Qcle_refl _)).
Qed.

(** Two binary64 numbers with different specifications are different. *)
Ltac float_neq :=
  let E := fresh "E" in
  intros E; apply (f_equal Prim2SF) in E; vm_compute in E; discriminate E.

(* ================================================================== *)
(** ** The claims about the pool *)

(** C1 (as amended).  On a pool whose reserves are both at least
    epsilon, [swap(amount_in, "buy")] with [amount_in > 0] sets
    reserveB' = reserveB + amount_in * (1 - fee_rate), sets
    reserveA' = K / reserveB' when reserveB' is not zero and reserveA' = 0
    when it is, recomputes K, and returns reserveA - reserveA' clamped at
    zero.  In exact arithmetic reserveB' is never zero when the fee rate
    is below 1.  On the pool made by [add_liquidity(1000, 1200)] with
    fee rate 0.003, [swap(100, "buy")] returns
    1000 - (1000*1200)/(1200 + 100*0.997) = 76.71001000230831. *)
Theorem swap_buy_amount_out :
  (∀ (F : Type) (N : Num F), NumLaws F →
     ∀ (self : ConstantProductAMM F) (amount_in : F),
       (near_zero <=? reserveA self)%num = true →
       (near_zero <=? reserveB self)%num = true →
       (zero <? amount_in)%num = true →
       let new_reserveB := (reserveB self + amount_in * (one - fee_rate self))%num in
       let new_reserveA :=
         if (new_reserveB =? zero)%num then zero else (K self / new_reserveB)%num in
       swap self amount_in "buy" =
         (clamp0 (reserveA self - new_reserveA)%num,
          {| fee_rate := fee_rate self; reserveA := new_reserveA;
             reserveB := new_reserveB; K := (new_reserveA * new_reserveB)%num;
             liquidity_shares := liquidity_shares self |}))
  ∧ (∀ (self : ConstantProductAMM Qc) (amount_in : Qc),
       (near_zero <=? reserveB self)%num = true →
       (zero <? amount_in)%num = true →
       (fee_rate self <? one)%num = true →
       (reserveB self + amount_in * (one - fee_rate self) =? zero)%num = false)
  ∧ (let out := fst (swap Scenario.pool_1000_1200 100%float "buy") in
     out = (1000 - (1000 * 1200) / (1200 + 100 * dec 997 3))%float
     ∧ out = dec 7671001000230831 14
     ∧ (fabs (out - dec 7671 2) <? dec 1 2)%num = true).
Proof.
  split; [|split].
  - intros F N L self amount_in HA HB Hin. apply swap_buy_unfold; assumption.
  - intros self amount_in HB Hin Hfee.
    apply exact_post_fee_reserve_nonzero; assumption.
  - vm_compute. repeat split; reflexivity.
Qed.

Lemma swap_buy_amount_out_witness :
  swap Scenario.pool_1000_1200 100%float "buy" =
    (dec 7671001000230831 14,
     {| fee_rate := default_fee_rate; reserveA := (1200000 / dec 12997 1)%float;
        reserveB := dec 12997 1; K := 1200000%float;
        liquidity_shares := 2200%float |}).
Proof.
  rewrite (proj1 swap_buy_amount_out float _ _ Scenario.pool_1000_1200 100%float)
    by (vm_compute; reflexivity).
  vm_compute. reflexivity.
Defined.

(** C1, the claim as stated fails twice: the scenario's result is
    76.71..., more than 2.9 away from 79.67; and on a pool whose fee rate
    is 2 the post-swap reserveB is 0 and reserveA' is 0, not K / reserveB'. *)
Lemma swap_buy_scenario_not_79_67 :
  (let out := fst (swap Scenario.pool_1000_1200 100%float "buy") in
   out = dec 7671001000230831 14
   ∧ (dec 29 1 <? fabs (out - dec 7967 2))%num = true)
  ∧ (let self := Scenario.pool_fee_2 in
     let self' := snd (swap self 1%float "buy") in
     (near_zero <=? reserveA self)%num = true
     ∧ (near_zero <=? reserveB self)%num = true
     ∧ K self = (reserveA self * reserveB self)%num
     ∧ reserveB self' = 0%float
     ∧ reserveA self' = 0%float
     ∧ reserveA self' ≠ (K self / reserveB self')%num).
Proof.
  split.
  - vm_compute. split; reflexivity.
  - repeat split; try (vm_compute; reflexivity). vm_compute. float_neq.
Qed.

(** C2.  Whatever calls are made on a newly constructed pool, and in
    whatever order and with whatever arguments, the stored K is the
    product of the stored reserves after the last of them (hence after
    each of them, every prefix of a sequence of calls being one). *)
Theorem K_tracks_reserves (F : Type) `{NumLaws F} (fee : F) (cs : list (call F)) :
  let self := perform_all (new_amm fee) cs in
  K self = (reserveA self * reserveB self)%num.
Proof.
  cbv zeta. unfold perform_all.
  generalize (new_amm_K fee). generalize (new_amm fee).
  induction cs as [|c cs IH]; intros self HK; simpl.
  - exact HK.
  - apply IH, perform_K, HK.
Qed.

Lemma K_tracks_reserves_witness :
  let self := perform_all (new_amm (default_fee_rate : float)) Scenario.some_calls in
  K self = (reserveA self * reserveB self)%num.
Proof. exact (K_tracks_reserves float default_fee_rate Scenario.some_calls). Defined.

(** C3 (as amended).  On a pool with fee rate 0, both reserves at least
    epsilon and K = reserveA * reserveB, a swap of a positive amount sets
    the reserve of the token paid in to r' = reserve + amount_in * (1 - 0)
    and the other reserve to q = K / r' (0 if r' = 0), and stores their
    product as K: the product of the reserves after the swap is q * r',
    computed in the arithmetic at hand.  In exact arithmetic q * r' is
    exactly the product before the swap. *)
Theorem zero_fee_swap_keeps_product_exact :
  (∀ (F : Type) (N : Num F), NumLaws F →
     ∀ (self : ConstantProductAMM F) (amount_in : F) (dir : string),
       fee_rate self = zero →
       (near_zero <=? reserveA self)%num = true →
       (near_zero <=? reserveB self)%num = true →
       K self = (reserveA self * reserveB self)%num →
       (zero <? amount_in)%num = true →
       let self' := snd (swap self amount_in dir) in
       let r' := ((if String.eqb dir "buy" then reserveB self else reserveA self)
                  + amount_in * (one - zero))%num in
       let q := if (r' =? zero)%num then zero
                else (reserveA self * reserveB self / r')%num in
       (if String.eqb dir "buy"
        then reserveA self' = q ∧ reserveB self' = r'
        else reserveA self' = r' ∧ reserveB self' = q)
       ∧ K self' = (reserveA self' * reserveB self')%num)
  ∧ (∀ (self : ConstantProductAMM Qc) (amount_in : Qc) (dir : string),
       fee_rate self = zero →
       (near_zero <=? reserveA self)%num = true →
       (near_zero <=? reserveB self)%num = true →
       K self = (reserveA self * reserveB self)%num →
       (zero <? amount_in)%num = true →
       let self' := snd (swap self amount_in dir) in
       (reserveA self' * reserveB self')%num = (reserveA self * reserveB self)%num).
Proof.
  split.
  - intros F N L self amount_in dir Hfee HA HB HK Hin.
    destruct (String.eqb dir "buy") eqn:Hdir.
    + apply String.eqb_eq in Hdir. subst dir.
      rewrite (swap_buy_unfold self amount_in HA HB Hin). cbn [snd reserveA reserveB K].
      rewrite Hfee, HK. repeat split.
    + rewrite (swap_sell_unfold self amount_in dir HA HB Hin Hdir).
      cbn [snd reserveA reserveB K]. rewrite Hfee, HK. repeat split.
  - intros self amount_in dir Hfee HA HB HK Hin.
    assert (Hone : ((zero : Qc) <? one)%num = true) by reflexivity.
    destruct (String.eqb dir "buy") eqn:Hdir.
    + apply String.eqb_eq in Hdir. subst dir.
      rewrite (swap_buy_unfold self amount_in HA HB Hin). cbn [snd reserveA reserveB].
      rewrite Hfee in *.
      pose proof (exact_post_fee_reserve_nonzero _ _ _ HB Hin Hone) as Hnz.
      rewrite Hnz, HK. apply ExactFacts.eqb_neq in Hnz.
      cbn [fadd fsub fmul fdiv Qc_Num] in *. field. exact Hnz.
    + rewrite (swap_sell_unfold self amount_in dir HA HB Hin Hdir).
      cbn [snd reserveA reserveB]. rewrite Hfee in *.
      pose proof (exact_post_fee_reserve_nonzero _ _ _ HA Hin Hone) as Hnz.
      rewrite Hnz, HK. apply ExactFacts.eqb_neq in Hnz.
      cbn [fadd fsub fmul fdiv Qc_Num] in *. field. exact Hnz.
Qed.

Lemma zero_fee_swap_keeps_product_exact_witness :
  (let self := Scenario.exact_pool_zero_fee in
   let self' := snd (swap self (of_int 1) "buy") in
   (reserveA self' * reserveB self')%num = (reserveA self * reserveB self)%num)
  ∧ (let self' := snd (swap Scenario.pool_zero_fee 1%float "buy") in
     reserveA self' = (10 * 10 / (10 + 1 * (1 - 0)))%float
     ∧ reserveB self' = (10 + 1 * (1 - 0))%float).
Proof.
  split.
  - apply (proj2 zero_fee_swap_keeps_product_exact Scenario.exact_pool_zero_fee
             (of_int 1) "buy"); reflexivity.
  - exact (proj1 (proj1 zero_fee_swap_keeps_product_exact float _ _
                    Scenario.pool_zero_fee 1%float "buy"
                    eq_refl eq_refl eq_refl eq_refl eq_refl)).
Defined.

(** C3, the claim as stated fails in binary64: on the zero-fee pool
    holding (10, 10) a buy of 1 gives reserves (100/11, 11), whose
    product is 100.00000000000001, not 100; and a buy of an infinite
    amount gives reserves (0, infinity), whose product is NaN. *)
Lemma zero_fee_swap_product_rounds :
  let self := Scenario.pool_zero_fee in
  let self' := snd (swap self 1%float "buy") in
  let self'' := snd (swap self infinity "buy") in
  fee_rate self = 0%float
  ∧ (near_zero <=? reserveA self)%num = true
  ∧ (near_zero <=? reserveB self)%num = true
  ∧ K self = (reserveA self * reserveB self)%num
  ∧ (zero <? 1%float)%num = true
  ∧ (reserveA self * reserveB self)%num = 100%float
  ∧ (reserveA self * reserveB self <? reserveA self' * reserveB self')%num = true
  ∧ (reserveA self' * reserveB self')%num ≠ (reserveA self * reserveB self)%num
  ∧ (zero <? infinity)%num = true
  ∧ reserveA self'' = 0%float
  ∧ reserveB self'' = infinity
  ∧ isnan (reserveA self'' * reserveB self'')%num = true.
Proof.
  repeat split; try (vm_compute; reflexivity). vm_compute. float_neq.
Qed.

(** C4 (as amended).  [remove_liquidity(f)] with f < 0 returns None and
    leaves the pool unchanged; with f >= 0 it uses g = min(f, 0.999),
    subtracts g * reserveA and g * reserveB from the reserves, burns
    g * liquidity_shares, recomputes K and returns
    (g * reserveA, g * reserveB).  After [remove_liquidity(1.0)] each
    reserve is pre - pre * 0.999, which in exact arithmetic is
    (1 - 0.999) * pre, hence at least that. *)
Theorem remove_liquidity_spec :
  (∀ (F : Type) (N : Num F), NumLaws F →
     ∀ (self : ConstantProductAMM F) (f : F),
       ((f <? zero)%num = true → remove_liquidity self f = (None, self))
       ∧ ((zero <=? f)%num = true →
          let g := pymin f max_fraction in
          remove_liquidity self f =
            (Some ((reserveA self * g)%num, (reserveB self * g)%num),
             {| fee_rate := fee_rate self;
                reserveA := (reserveA self - reserveA self * g)%num;
                reserveB := (reserveB self - reserveB self * g)%num;
                K := ((reserveA self - reserveA self * g)
                      * (reserveB self - reserveB self * g))%num;
                liquidity_shares :=
                  (liquidity_shares self - liquidity_shares self * g)%num |})))
  ∧ (∀ (self : ConstantProductAMM float),
       let self' := snd (remove_liquidity self 1%float) in
       reserveA self' = (reserveA self - reserveA self * max_fraction)%num
       ∧ reserveB self' = (reserveB self - reserveB self * max_fraction)%num)
  ∧ (∀ (self : ConstantProductAMM Qc),
       let self' := snd (remove_liquidity self one) in
       reserveA self' = ((one - max_fraction) * reserveA self)%num
       ∧ reserveB self' = ((one - max_fraction) * reserveB self)%num
       ∧ ((one - max_fraction) * reserveA self <=? reserveA self')%num = true
       ∧ ((one - max_fraction) * reserveB self <=? reserveB self')%num = true).
Proof.
  split; [|split].
  - intros F N L self f. split.
    + apply remove_liquidity_negative.
    + apply remove_liquidity_nonnegative.
  - intros self self'. subst self'.
    rewrite (remove_liquidity_nonnegative self 1%float) by reflexivity.
    change (pymin 1%float max_fraction) with (max_fraction : float).
    split; reflexivity.
  - intros self self'.
    assert (HA : reserveA self' = ((one - max_fraction) * reserveA self)%num).
    { subst self'. rewrite (remove_liquidity_nonnegative self one) by reflexivity.
      cbn [snd reserveA]. replace (pymin one max_fraction) with (max_fraction : Qc)
        by reflexivity.
      rewrite ExactFacts.one_is_1. cbn [fadd fsub fmul Qc_Num]. ring. }
    assert (HB : reserveB self' = ((one - max_fraction) * reserveB self)%num).
    { subst self'. rewrite (remove_liquidity_nonnegative self one) by reflexivity.
      cbn [snd reserveB]. replace (pymin one max_fraction) with (max_fraction : Qc)
        by reflexivity.
      rewrite ExactFacts.one_is_1. cbn [fadd fsub fmul Qc_Num]. ring. }
    rewrite HA, HB. repeat split; apply ExactFacts.leb_le, Qcle_refl.
Qed.

Lemma remove_liquidity_spec_witness :
  remove_liquidity Scenario.pool_1000_1000 (-1)%float = (None, Scenario.pool_1000_1000)
  ∧ remove_liquidity Scenario.pool_1000_1000 (dec 5 1) =
      (Some (500%float, 500%float),
       {| fee_rate := default_fee_rate; reserveA := 500%float; reserveB := 500%float;
          K := 250000%float; liquidity_shares := 1000%float |}).
Proof.
  split.
  - apply (proj1 (proj1 remove_liquidity_spec float _ _ Scenario.pool_1000_1000 (-1)%float)).
    reflexivity.
  - rewrite (proj2 (proj1 remove_liquidity_spec float _ _ Scenario.pool_1000_1000 (dec 5 1)))
      by (vm_compute; reflexivity).
    vm_compute. reflexivity.
Defined.

(** C4, the claim as stated fails in binary64: after
    [remove_liquidity(1.0)] on the pool holding (1000, 1000) each reserve
    is 1000 - 999.0 = 1.0, below (1 - 0.999) * 1000 = 1.0000000000000009. *)
Lemma remove_liquidity_full_below_bound :
  let self := Scenario.pool_1000_1000 in
  let self' := snd (remove_liquidity self 1%float) in
  reserveA self' = 1%float
  ∧ reserveB self' = 1%float
  ∧ (reserveA self' <? (one - max_fraction) * reserveA self)%num = true
  ∧ ((one - max_fraction) * reserveA self <=? reserveA self')%num = false
  ∧ ((one - max_fraction) * reserveB self <=? reserveB self')%num = false.
Proof. vm_compute. repeat split; reflexivity. Qed.

(** C5.  If amount_in <= 0, or reserveA < epsilon, or reserveB < epsilon,
    then [swap(amount_in, direction)] returns 0 and leaves the pool
    (reserveA, reserveB, K, liquidity_shares and the fee rate) as it was. *)
Theorem swap_rejected_is_noop (F : Type) `{Num F}
    (self : ConstantProductAMM F) (amount_in : F) (dir : string) :
  (amount_in <=? zero)%num = true
  ∨ (reserveA self <? near_zero)%num = true
  ∨ (reserveB self <? near_zero)%num = true →
  swap self amount_in dir = (zero, self).
Proof.
  intros Hguard. unfold swap.
  destruct (amount_in <=? zero)%num; [reflexivity|].
  destruct Hguard as [Hin|[HA|HB]]; [discriminate Hin| |].
  - rewrite HA. reflexivity.
  - rewrite HB, orb_true_r. reflexivity.
Qed.

Lemma swap_rejected_is_noop_witness :
  swap Scenario.pool_degenerate 7%float "buy" = (0%float, Scenario.pool_degenerate)
  ∧ swap Scenario.pool_1000_1200 (-3)%float "sell" = (0%float, Scenario.pool_1000_1200).
Proof.
  split.
  - exact (swap_rejected_is_noop float Scenario.pool_degenerate 7%float "buy"
             (or_intror (or_introl eq_refl))).
  - exact (swap_rejected_is_noop float Scenario.pool_1000_1200 (-3)%float "sell"
             (or_introl eq_refl)).
Defined.

(** C6 (as amended).  Starting from an empty pool (both reserves 0),
    [add_liquidity(a, b)] followed by [get_price()] yields exactly b / a
    when a is at least epsilon, and 0 when a is below epsilon. *)
Theorem first_deposit_price (F : Type) `{NumLaws F}
    (self : ConstantProductAMM F) (a b : F) :
  reserveA self = zero →
  reserveB self = zero →
  ((near_zero <=? a)%num = true →
   get_price (snd (add_liquidity self a b)) = (b / a)%num)
  ∧ ((a <? near_zero)%num = true →
     get_price (snd (add_liquidity self a b)) = zero).
Proof.
  intros HA _. rewrite (add_liquidity_empty self a b HA).
  unfold get_price. cbn [snd reserveA reserveB]. split.
  - intros Ha. rewrite (leb_not_ltb _ _ Ha). reflexivity.
  - intros Ha. rewrite Ha. reflexivity.
Qed.

Lemma first_deposit_price_witness :
  get_price (snd (add_liquidity Scenario.pool_empty 1000%float 1200%float))
  = (1200%float / 1000%float)%num.
Proof.
  apply (first_deposit_price float Scenario.pool_empty 1000%float 1200%float);
    reflexivity.
Defined.

(** C6, the claim as stated fails for a positive a below epsilon: after
    [add_liquidity(1e-13, 1)] on an empty pool, [get_price()] is 0, not
    1 / 1e-13. *)
Lemma first_deposit_price_tiny :
  let a : float := dec 1 13 in
  let b : float := 1%float in
  (zero <? a)%num = true
  ∧ (zero <? b)%num = true
  ∧ reserveA Scenario.pool_empty = 0%float
  ∧ reserveB Scenario.pool_empty = 0%float
  ∧ get_price (snd (add_liquidity Scenario.pool_empty a b)) = 0%float
  ∧ get_price (snd (add_liquidity Scenario.pool_empty a b)) ≠ (b / a)%num.
Proof.
  repeat split; try (vm_compute; reflexivity). vm_compute. float_neq.
Qed.

(* ================================================================== *)
(** ** The environment: what a tick does *)

Section EnvironmentFacts.
Context {F : Type} `{Num F} {A : Type} `{Agent F A}.
Local Open Scope num_scope.

(** [reset] zeroes the reward of every agent on the roster. *)
Lemma zero_rewards_zero (l : list A) (r : gmap string F) (nm : string) :
r !! nm = Some zero → zero_rewards l r !! nm = Some zero.
Proof.
unfold zero_rewards. revert r.
induction l as [|ag l IH]; intros r Hr; simpl; [exact Hr|].
apply IH. destruct (decide (name ag = nm)) as [->|Hne].
- apply lookup_insert_eq.
- rewrite lookup_insert_ne by exact Hne. exact Hr.
Qed.

Lemma zero_rewards_agent (l : list A) (r : gmap string F) (ag : A) :
ag ∈ l → zero_rewards l r !! name ag = Some zero.
Proof.
unfold zero_rewards. revert r.
induction l as [|ag' l IH]; intros r Hin; [inversion Hin|].
simpl. apply elem_of_cons in Hin as [->|Hin].
- apply (zero_rewards_zero l). apply lookup_insert_eq.
- apply IH, Hin.
Qed.

(** Executing an action moves neither the step counter nor the horizon. *)
Lemma add_reward_steps (e e' : MarketEnvironment F A) (nm : string) (x : F) :
add_reward e nm x = Some e' →
current_step e' = current_step e ∧ num_steps e' = num_steps e.
Proof.
unfold add_reward. destruct (rewards e !! nm); simpl; [|discriminate].
intros [= <-]. split; reflexivity.
Qed.

Lemma execute_steps (e e' : MarketEnvironment F A) (price : F) (nm : string)
  (a : action F) :
execute e price nm a = Some e' →
current_step e' = current_step e ∧ num_steps e' = num_steps e.
Proof.
unfold execute.
destruct (String.eqb (action_type a) "trade").
{ destruct (zero <? default zero (amount a)); [|intros [= <-]; split; reflexivity].
  destruct (swap _ _ _) as [tokens p].
  destruct (String.eqb _ "buy").
  - destruct (add_reward _ _ _) as [e1|] eqn:E1; simpl; [|discriminate].
    intros [= <-]. apply add_reward_steps in E1. exact E1.
  - destruct (add_reward _ _ _) as [e1|] eqn:E1; simpl; [|discriminate].
    intros [= <-]. apply add_reward_steps in E1. exact E1. }
destruct (String.eqb (action_type a) "add_liquidity").
{ destruct (amount_tokenA a); simpl; [|discriminate].
  destruct (amount_tokenB a); simpl; [|discriminate].
  destruct (_ && _); intros [= <-]; split; reflexivity. }
destruct (String.eqb (action_type a) "remove_liquidity").
{ destruct (amount_tokenA a); simpl; [|discriminate].
  destruct (amount_tokenB a); simpl; [|discriminate].
  destruct (remove_liquidity _ _) as [[[outA outB]|] p].
  - intros E1. apply add_reward_steps in E1. exact E1.
  - intros [= <-]. split; reflexivity. }
intros [= <-]. split; reflexivity.
Qed.

Lemma execute_all_steps (actions : gmap string (action F)) (price : F) (l : list A)
  (e e' : MarketEnvironment F A) :
execute_all actions price l e = Some e' →
current_step e' = current_step e ∧ num_steps e' = num_steps e.
Proof.
revert e. induction l as [|ag l IH]; intros e; simpl.
- intros [= <-]. split; reflexivity.
- destruct (actions !! name ag) as [a|]; simpl; [|discriminate].
  destruct (execute e price (name ag) a) as [e1|] eqn:E1; simpl; [|discriminate].
  intros E2. apply IH in E2 as [-> ->]. apply execute_steps in E1. exact E1.
Qed.

Lemma step_true (e e' : MarketEnvironment F A) :
step e = Some (true, e') →
current_step e' = S (current_step e) ∧ num_steps e' = num_steps e
∧ (current_step e < num_steps e)%nat.
Proof.
unfold step. destruct (num_steps e <=? current_step e)%nat eqn:Hend; [discriminate|].
apply Nat.leb_gt in Hend.
destruct (reference_prices e !! current_step e) as [price|]; simpl; [|discriminate].
destruct (collect _ _) as [actions l].
destruct (execute_all _ _ _ _) as [e1|] eqn:E1; simpl; [|discriminate].
intros [= <-]. apply execute_all_steps in E1 as [E1 E2]. simpl in *.
rewrite E1, E2. auto.
Qed.

(** The fuel [run_simulation] passes to the loop is enough. *)
Lemma run_loop_fuel (fuel : nat) (e : MarketEnvironment F A) :
(num_steps e - current_step e < fuel)%nat → run_loop fuel e ≠ None.
Proof.
revert e. induction fuel as [|fuel IH]; intros e Hfuel; [lia|].
simpl. destruct (step e) as [[[] e']|] eqn:Hstep; try discriminate.
apply step_true in Hstep as (Hc & Hn & Hlt).
apply IH. lia.
Qed.

Lemma run_simulation_fuel (e : MarketEnvironment F A) : run_simulation e ≠ None.
Proof. apply run_loop_fuel. simpl. lia. Qed.

(** A tick before the horizon: the actions are collected on one
    observation, then [execute] runs for each agent in roster order. *)
Lemma step_running (e : MarketEnvironment F A) (current_price : F) :
  (current_step e < num_steps e)%nat →
  reference_prices e !! current_step e = Some current_price →
  step e =
    (let es := mkEnvState (get_price (amm e)) current_price (current_step e) in
     let '(actions, l) := collect (agents e) es in
     e' ← execute_all actions current_price l (with_agents e l);
     Some (true, with_current_step e' (S (current_step e')))).
Proof.
  intros Hlt Hprice. unfold step.
  apply Nat.leb_gt in Hlt. rewrite Hlt, Hprice. reflexivity.
Qed.
End EnvironmentFacts.

(** A tick of one scripted buyer on a degenerate pool: the pool is
    untouched, the buyer is charged 7 and tokenB volume is 7. *)
Example degenerate_tick :
  ∃ e', step Scenario.env_degenerate = Some (true, e')
        ∧ amm e' = amm Scenario.env_degenerate
        ∧ rewards e' !! "trader"%string = Some (-7)%float
        ∧ total_volume_tokenA e' = 0%float
        ∧ total_volume_tokenB e' = 7%float.
Proof.
  eexists. split; [vm_compute; reflexivity|].
  repeat split; vm_compute; reflexivity.
Qed.

(* ================================================================== *)
(** ** The claims about the environment *)

(** C7.  When the action executed for an agent at a tick is
    remove_liquidity with fractions (fA, fB), the environment calls the
    pool's [remove_liquidity] with min(fA, fB); when that returns a pair
    (outA, outB) the agent's reward grows by
    outA * reference_price + outB, and when it returns None the ledger is
    left alone.  With one scripted agent proposing
    remove_liquidity(0.5, 0.5) on a pool holding (200, 300) and reference
    price 1.5 at step 0, one tick leaves the agent's reward at
    100*1.5 + 150 = 300.0 and the reserves at (100, 150). *)
Theorem remove_liquidity_action_reward :
  (∀ (F : Type) (N : Num F) (A : Type) (Ag : Agent F A)
     (e : MarketEnvironment F A) (current_price : F) (nm : string)
     (a : action F) (fA fB : F),
     action_type a = "remove_liquidity"%string →
     amount_tokenA a = Some fA →
     amount_tokenB a = Some fB →
     let result := remove_liquidity (amm e) (pymin fA fB) in
     match fst result with
     | Some (outA, outB) =>
         ∀ r, rewards e !! nm = Some r →
              execute e current_price nm a =
                Some (with_rewards (with_amm e (snd result))
                        (<[nm := (r + (outA * current_price + outB))%num]> (rewards e)))
     | None => execute e current_price nm a = Some (with_amm e (snd result))
     end)
  ∧ (∃ e', step Scenario.env_200_300 = Some (true, e')
           ∧ rewards Scenario.env_200_300 !! "lp"%string = Some 0%float
           ∧ rewards e' !! "lp"%string = Some (100 * dec 15 1 + 150)%float
           ∧ rewards e' !! "lp"%string = Some 300%float
           ∧ reserveA (amm e') = 100%float
           ∧ reserveB (amm e') = 150%float
           ∧ current_step e' = 1%nat).
Proof.
  split.
  - intros F N A Ag e price nm a fA fB Hty HA HB result. subst result.
    unfold execute. rewrite Hty, HA, HB. simpl.
    destruct (remove_liquidity (amm e) (pymin fA fB)) as [[[outA outB]|] p]; simpl.
    + intros r Hr. unfold add_reward. simpl. rewrite Hr. reflexivity.
    + reflexivity.
  - eexists. split; [vm_compute; reflexivity|].
    repeat split; vm_compute; reflexivity.
Qed.

Lemma remove_liquidity_action_reward_witness :
  execute Scenario.env_200_300 (dec 15 1) "lp" Scenario.remove_half =
    Some (with_rewards
            (with_amm Scenario.env_200_300
               (snd (remove_liquidity (amm Scenario.env_200_300) (dec 5 1))))
            (<["lp"%string := 300%float]> (rewards Scenario.env_200_300))).
Proof.
  exact (proj1 remove_liquidity_action_reward float _ (scripted float) _
           Scenario.env_200_300 (dec 15 1) "lp"%string Scenario.remove_half
           (dec 5 1) (dec 5 1) eq_refl eq_refl eq_refl 0%float eq_refl).
Defined.




(** C10.  [reset] sets the step to 0, zeroes the reward of every agent
    on the roster and both volume counters, and leaves every field of
    the pool as it was; [run_simulation] is the stepping loop started
    from that reset state, so it starts on the pool it is given.  On
    [Scenario.env_buyer] a first run moves the pool, and a second run of
    the resulting environment starts from the moved pool and ends with a
    different reward. *)
Theorem reset_keeps_pool :
  (∀ (F : Type) (N : Num F) (A : Type) (Ag : Agent F A) (e : MarketEnvironment F A),
     current_step (reset e) = 0%nat
     ∧ (∀ ag, ag ∈ agents e → rewards (reset e) !! name ag = Some zero)
     ∧ total_volume_tokenA (reset e) = zero
     ∧ total_volume_tokenB (reset e) = zero
     ∧ amm (reset e) = amm e
     ∧ run_simulation e = run_loop (S (num_steps e)) (reset e)
     ∧ run_simulation e ≠ None)
  ∧ (∃ e1 e2,
       run_simulation Scenario.env_buyer = Some (Some e1)
       ∧ run_simulation e1 = Some (Some e2)
       ∧ amm (reset e1) = amm e1
       ∧ reserveB (amm Scenario.env_buyer) = 1200%float
       ∧ reserveB (amm e1) = (1200 + 7 * dec 997 3 + 7 * dec 997 3)%float
       ∧ (rewards e2 !! "trader"%string ≫= λ r2,
          rewards e1 !! "trader"%string ≫= λ r1, Some (r2 <? r1)%float) = Some true).
Proof.
  split.
  - intros F N A Ag e. repeat split.
    + intros ag Hag. apply zero_rewards_agent, Hag.
    + apply run_simulation_fuel.
  - do 2 eexists.
    split; [vm_compute; reflexivity|].
    split; [vm_compute; reflexivity|].
    repeat split; vm_compute; reflexivity.
Qed.

Lemma reset_keeps_pool_witness :
  rewards (reset Scenario.env_buyer) !! "trader"%string = Some 0%float.
Proof.
  exact (proj1 (proj2 (proj1 reset_keeps_pool float _ (scripted float) _
                         Scenario.env_buyer))
           (mkScripted "trader" Scenario.buy_7) (list_elem_of_here _ _)).
Defined.

(* ================================================================== *)
(** ** The Q-policy: what an update does *)

Section QPolicyFacts.
Context {F : Type} `{Num F}.
Local Open Scope num_scope.

Lemma q_get_set_eq (q : list (list (list F))) (s : nat * nat) (a : nat) (old v : F) :
q_get q s a = Some old → q_get (q_set q s a v) s a = Some v.
Proof.
unfold q_get, q_row, q_set. rewrite list_lookup_alter_eq.
destruct (q !! s.1) as [plane|]; simpl; [|discriminate].
rewrite list_lookup_alter_eq.
destruct (plane !! s.2) as [row|]; simpl; [|discriminate].
intros Hold. apply list_lookup_insert_eq. eapply lookup_lt_Some, Hold.
Qed.

Lemma q_get_set_ne (q : list (list (list F))) (s s' : nat * nat) (a a' : nat) (v : F) :
(s', a') ≠ (s, a) → q_get (q_set q s a v) s' a' = q_get q s' a'.
Proof.
intros Hne. unfold q_get, q_row, q_set.
destruct (decide (s.1 = s'.1)) as [E1|N1]; [|rewrite list_lookup_alter_ne by exact N1; reflexivity].
rewrite <- E1, list_lookup_alter_eq.
destruct (q !! s.1) as [plane|]; simpl; [|reflexivity].
destruct (decide (s.2 = s'.2)) as [E2|N2]; [|rewrite list_lookup_alter_ne by exact N2; reflexivity].
rewrite <- E2, list_lookup_alter_eq.
destruct (plane !! s.2) as [row|]; simpl; [|reflexivity].
apply list_lookup_insert_ne. intros ->. apply Hne.
destruct s, s'. simpl in *. congruence.
Qed.

(** With nothing pending, [update_q] returns at once. *)
Lemma update_q_idle (self : SimpleQPolicy F) (reward : F) (obs : env_state F)
  (done : bool) :
last_state self = None → update_q self reward obs done = Some self.
Proof. intros Hidle. unfold update_q. rewrite Hidle. reflexivity. Qed.

Lemma update_q_pending (self : SimpleQPolicy F) (reward : F) (obs : env_state F)
  (done : bool) (s : nat * nat) (a : nat) (old target : F) :
last_state self = Some s →
last_action self = Some a →
q_get (q_table self) s a = Some old →
q_target self reward obs done = Some target →
update_q self reward obs done =
  Some (with_pending self
          (q_set (q_table self) s a (old + alpha self * (target - old)))
          None None).
Proof.
intros Hs Ha Hold Ht. unfold update_q. rewrite Hs, Ha. simpl.
rewrite Ht. simpl. rewrite Hold. reflexivity.
Qed.

Lemma q_target_done (self : SimpleQPolicy F) (reward : F) (obs : env_state F) :
q_target self reward obs true = Some reward.
Proof. reflexivity. Qed.

Lemma q_target_next (self : SimpleQPolicy F) (reward : F) (obs : env_state F)
  (s_next : nat * nat) (q0 q1 q2 : F) :
_discretize_state self obs = Some s_next →
q_row (q_table self) s_next = Some [q0; q1; q2] →
q_target self reward obs false =
  Some (reward + gamma self * np_maximum (np_maximum q0 q1) q2).
Proof.
intros Hs Hrow. unfold q_target. rewrite Hs. simpl. rewrite Hrow. reflexivity.
Qed.

(** [select_action] leaves a selection pending and the table alone. *)
Lemma select_action_pending (self self' : SimpleQPolicy F) (u : F) (k : nat)
  (es : env_state F) (act : action F) :
select_action self u k es = Some (act, self') →
(∃ s a, last_state self' = Some s ∧ last_action self' = Some a)
∧ q_table self' = q_table self.
Proof.
unfold select_action.
destruct (_discretize_state self es) as [s|]; simpl; [|discriminate].
destruct (if u <? epsilon self then Some k else _) as [a|]; simpl; [|discriminate].
intros [= _ <-]. simpl. eauto.
Qed.
End QPolicyFacts.

(** C8.  [update_q(reward, next_obs, done)] with nothing pending
    returns the policy as it is.  With a selection (s, a) pending it
    replaces exactly the entry Q[s][a] by Q[s][a] + alpha * (target - Q[s][a]),
    where target is reward when done and
    reward + gamma * (max of the three values at the discretized next_obs)
    otherwise; every other entry is as before and the pending state and
    action are cleared, so an update that follows is a no-op.  In
    particular after select_action and one update, a second update
    changes nothing. *)
Theorem update_q_spec (F : Type) `{Num F} (self : SimpleQPolicy F)
    (reward : F) (next_obs : env_state F) :
  (last_state self = None →
   ∀ done, update_q self reward next_obs done = Some self)
  ∧ (∀ (s : nat * nat) (a : nat) (old target : F) (done : bool),
       last_state self = Some s →
       last_action self = Some a →
       q_get (q_table self) s a = Some old →
       (done = true ∧ target = reward)
       ∨ (done = false
          ∧ ∃ s_next q0 q1 q2,
              _discretize_state self next_obs = Some s_next
              ∧ q_row (q_table self) s_next = Some [q0; q1; q2]
              ∧ target = (reward + gamma self * np_maximum (np_maximum q0 q1) q2)%num) →
       ∃ self',
         update_q self reward next_obs done = Some self'
         ∧ q_get (q_table self') s a = Some (old + alpha self * (target - old))%num
         ∧ (∀ s' a', (s', a') ≠ (s, a) →
                     q_get (q_table self') s' a' = q_get (q_table self) s' a')
         ∧ last_state self' = None
         ∧ last_action self' = None
         ∧ ∀ reward' obs' done', update_q self' reward' obs' done' = Some self')
  ∧ (∀ (u : F) (k : nat) (es : env_state F) (act : action F)
       (self1 self2 : SimpleQPolicy F) (done : bool),
       select_action self u k es = Some (act, self1) →
       update_q self1 reward next_obs done = Some self2 →
       last_state self2 = None
       ∧ ∀ reward' obs' done',
           update_q self2 reward' obs' done' = Some self2).
Proof.
  split; [|split].
  - intros Hidle done. apply update_q_idle, Hidle.
  - intros s a old target done Hs Ha Hold Htarget.
    assert (Ht : q_target self reward next_obs done = Some target).
    { destruct Htarget as [[-> ->]|[-> (s_next & q0 & q1 & q2 & Hd & Hrow & ->)]].
      - apply q_target_done.
      - apply (q_target_next self reward next_obs s_next q0 q1 q2 Hd Hrow). }
    eexists. split; [apply (update_q_pending self reward next_obs done s a old target);
                     assumption|].
    simpl. split; [eapply q_get_set_eq, Hold|].
    split; [intros s' a' Hne; apply q_get_set_ne, Hne|].
    split; [reflexivity|]. split; [reflexivity|].
    intros reward' obs' done'. apply update_q_idle. reflexivity.
  - intros u k es act self1 self2 done Hsel Hup.
    apply select_action_pending in Hsel as [(s & a & Hs & Ha) _].
    unfold update_q in Hup. rewrite Hs, Ha in Hup. simpl in Hup.
    destruct (q_target self1 reward next_obs done); simpl in Hup; [|discriminate].
    destruct (q_get (q_table self1) s a); simpl in Hup; [|discriminate].
    injection Hup as <-. split; [reflexivity|].
    intros reward' obs' done'. apply update_q_idle. reflexivity.
Qed.

Lemma update_q_spec_witness :
  select_action Scenario.policy_5_10 (dec 5 2) 2 Scenario.obs_1 =
    Some (action_remove, Scenario.policy_pending)
  ∧ ∃ self',
      update_q Scenario.policy_pending (dec 15 1) Scenario.obs_2 false = Some self'
      ∧ q_get (q_table self') (4%nat, 3%nat) 2%nat =
          Some (0 + dec 1 1 * ((dec 15 1 + dec 95 2 * 0) - 0))%float
      ∧ (∀ s' a', (s', a') ≠ ((4%nat, 3%nat), 2%nat) →
                  q_get (q_table self') s' a'
                  = q_get (q_table Scenario.policy_pending) s' a')
      ∧ last_state self' = None
      ∧ last_action self' = None
      ∧ ∀ reward' obs' done', update_q self' reward' obs' done' = Some self'.
Proof.
  split; [vm_compute; reflexivity|].
  refine (proj1 (proj2 (update_q_spec float Scenario.policy_pending (dec 15 1)
                          Scenario.obs_2))
            (4%nat, 3%nat) 2%nat 0%float (dec 15 1 + dec 95 2 * 0)%float false
            eq_refl eq_refl eq_refl _).
  right. split; [reflexivity|].
  exists (4%nat, 4%nat), 0%float, 0%float, 0%float.
  split; [vm_compute; reflexivity|]. split; [reflexivity|]. vm_compute. reflexivity.
Defined.

(* ================================================================== *)
(** ** Further properties of the pool *)

#[export] Instance float_OrderLaws : OrderLaws float.
Proof.
  split.
  - intros x y. cbn [fltb fleb float_Num].
    rewrite FloatAxioms.ltb_spec, FloatAxioms.leb_spec. unfold SFltb, SFleb.
    destruct (SFcompare (Prim2SF x) (Prim2SF y)) as [[]|]; congruence.
  - intros x y. cbn [feqb fleb float_Num].
    rewrite FloatAxioms.eqb_spec, FloatAxioms.leb_spec. unfold SFeqb, SFleb.
    destruct (SFcompare (Prim2SF x) (Prim2SF y)) as [[]|]; congruence.
  - reflexivity.
Qed.

#[export] Instance Qc_OrderLaws : OrderLaws Qc.
Proof.
  split; cbn [fleb fltb feqb Qc_Num].
  - intros x y. rewrite ExactFacts.ltb_lt, ExactFacts.leb_le. apply Qclt_le_weak.
  - intros x y. rewrite ExactFacts.eqb_eq, ExactFacts.leb_le. intros ->. apply Qcle_refl.
  - reflexivity.
Qed.

Module ExactOrder.
Local Open Scope Qc_scope.

Lemma pos_nonzero (y : Qc) : 0 < y → y ≠ 0.
Proof. intros Hy ->. exact (Qclt_not_le _ _ Hy (Qcle_refl _)). Qed.

Lemma mul_pos (x y : Qc) : 0 < x → 0 < y → 0 < x * y.
Proof.
  intros Hx Hy. rewrite <- (Qcmult_0_l y). apply Qcmult_lt_compat_r; assumption.
Qed.

Lemma add_pos_lt (x y : Qc) : 0 < y → x < x + y.
Proof.
  intros Hy. apply Qclt_minus_iff. replace (x + y + - x) with y by ring. exact Hy.
Qed.

Lemma near_zero_pos : 0 < near_zero.
Proof.
  apply ExactFacts.ltb_lt. rewrite <- ExactFacts.zero_is_0.
  exact (zero_lt_near_zero (F := Qc)).
Qed.

Lemma above_near_zero_pos (x : Qc) : (near_zero <=? x)%num = true → 0 < x.
Proof.
  intros Hx. apply ExactFacts.leb_le in Hx.
  exact (Qclt_le_trans _ _ _ near_zero_pos Hx).
Qed.
End ExactOrder.

Section PoolFrames.
Context {F : Type} `{Num F}.
Local Open Scope num_scope.

Lemma perform_fee_rate (self : ConstantProductAMM F) (c : call F) :
  fee_rate (perform self c) = fee_rate self.
Proof.
  destruct c as [a b|f|a d| |]; simpl; try reflexivity.
  - unfold add_liquidity. destruct (_ || _); reflexivity.
  - unfold remove_liquidity. destruct (_ <? zero); reflexivity.
  - unfold swap. destruct (_ <=? zero); [reflexivity|].
    destruct (_ || _); [reflexivity|]. destruct (String.eqb d "buy"); reflexivity.
Qed.
End PoolFrames.

(** X1.  No call changes the fee rate: after any sequence of calls on a
    pool, [fee_rate] is what it was. *)
Theorem fee_rate_is_fixed (F : Type) `{Num F}
    (self : ConstantProductAMM F) (cs : list (call F)) :
  fee_rate (perform_all self cs) = fee_rate self.
Proof.
  unfold perform_all. revert self.
  induction cs as [|c cs IH]; intros self; simpl; [reflexivity|].
  rewrite IH. apply perform_fee_rate.
Qed.

(** X2.  [swap] never returns a negative amount, whatever the pool, the
    amount and the direction. *)
Theorem swap_amount_out_not_negative (F : Type) `{NumLaws F}
    (self : ConstantProductAMM F) (amount_in : F) (dir : string) :
  (fst (swap self amount_in dir) <? zero)%num = false.
Proof.
  assert (H00 : ((zero : F) <? zero)%num = false).
  { destruct (zero <? zero)%num eqn:E; [|reflexivity].
    rewrite (ltb_asym _ _ E) in E. discriminate E. }
  assert (Hclamp : ∀ x : F, (clamp0 x <? zero)%num = false).
  { intros x. unfold clamp0. destruct (x <? zero)%num eqn:E; [exact H00 | exact E]. }
  unfold swap.
  destruct (amount_in <=? zero)%num; [exact H00|].
  destruct (_ || _); [exact H00|].
  destruct (String.eqb dir "buy"); apply Hclamp.
Qed.

Lemma swap_amount_out_not_negative_witness :
  (fst (swap Scenario.pool_1000_1200 100%float "buy") <? zero)%num = false
  ∧ (fst (swap Scenario.pool_fee_2 nan "sell") <? zero)%num = false.
Proof.
  split.
  - exact (swap_amount_out_not_negative float Scenario.pool_1000_1200 100%float "buy").
  - exact (swap_amount_out_not_negative float Scenario.pool_fee_2 nan "sell").
Defined.

Module ExactInt.
Local Open Scope Qc_scope.

Lemma of_Z_succ (n : Z) : Exact.of_Z (n + 1) = Exact.of_Z n + 1.
Proof.
  unfold Exact.of_Z. apply Qc_is_canon.
  change (Qred (inject_Z (n + 1)) == Qred (Qred (inject_Z n) + Qred 1))%Q.
  rewrite !Qred_correct, inject_Z_plus. reflexivity.
Qed.

Lemma of_int_succ (n : Z) : (of_int (n + 1) : Qc) = (of_int n + one)%num.
Proof.
  cbn [of_int fadd Qc_Num]. rewrite of_Z_succ, ExactFacts.one_is_1. reflexivity.
Qed.

Lemma of_Z_ge_1 (n : Z) : (1 <= n)%Z → 1 <= Exact.of_Z n.
Proof.
  intros Hn. unfold Qcle, Exact.of_Z. simpl.
  apply Qle_trans with (inject_Z n).
  - unfold Qle, inject_Z. simpl. lia.
  - apply Qle_lteq. right. symmetry. apply Qred_correct.
Qed.

Lemma near_zero_le_1 : near_zero <= 1.
Proof. apply ExactFacts.leb_le. reflexivity. Qed.

Lemma above_near_zero_add (s p : Qc) : near_zero <= s → 0 < p → near_zero <= s + p.
Proof.
  intros Hs Hp. apply Qcle_trans with s; [exact Hs|].
  apply Qclt_le_weak, ExactOrder.add_pos_lt, Hp.
Qed.
End ExactInt.

(** The loop of the price trace on a pool that holds [n >= 1] units of
    token A and [s] of token B. *)
Lemma dummy_amm_loop_mean (ref_prices : list Qc) :
  ∀ (dummy_amm : ConstantProductAMM Qc) (n : Z) (s : Qc),
    (1 <= n)%Z →
    reserveA dummy_amm = of_int n →
    reserveB dummy_amm = s →
    (near_zero <= s)%Qc →
    Forall (λ p : Qc, (near_zero <=? p)%num = true) ref_prices →
    dummy_amm_loop dummy_amm ref_prices = running_mean n s ref_prices.
Proof.
  induction ref_prices as [|p ref_prices IH]; intros dummy_amm n s Hn HA HB Hs Hall;
    [reflexivity|].
  apply Forall_cons in Hall as [Hp Hall]. cbn [dummy_amm_loop running_mean].
  assert (HgA : (near_zero <=? reserveA dummy_amm)%num = true).
  { rewrite HA. apply ExactFacts.leb_le.
    exact (Qcle_trans _ _ _ ExactInt.near_zero_le_1 (ExactInt.of_Z_ge_1 n Hn)). }
  assert (HgB : (near_zero <=? reserveB dummy_amm)%num = true).
  { rewrite HB. apply ExactFacts.leb_le, Hs. }
  assert (HA' : reserveA (snd (add_liquidity dummy_amm one p)) = of_int (n + 1)).
  { unfold add_liquidity. rewrite (leb_not_ltb _ _ HgA), (leb_not_ltb _ _ HgB).
    cbn [orb snd reserveA]. rewrite HA. symmetry. apply ExactInt.of_int_succ. }
  assert (HB' : reserveB (snd (add_liquidity dummy_amm one p)) = (s + p)%Qc).
  { unfold add_liquidity. rewrite (leb_not_ltb _ _ HgA), (leb_not_ltb _ _ HgB).
    cbn [orb snd reserveB]. rewrite HB. reflexivity. }
  pose proof (ExactOrder.above_near_zero_pos _ Hp) as Hp0.
  assert (Hn1 : (1 <= n + 1)%Z) by lia.
  f_equal.
  - unfold get_price. rewrite HA', HB'.
    replace (of_int (n + 1) <? near_zero)%num with false; [reflexivity|].
    symmetry. apply (leb_not_ltb (F := Qc)), ExactFacts.leb_le.
    exact (Qcle_trans _ _ _ ExactInt.near_zero_le_1 (ExactInt.of_Z_ge_1 _ Hn1)).
  - apply IH; try assumption.
    apply ExactInt.above_near_zero_add; assumption.
Qed.

(** X7.  The price trace [main] draws for its dummy pool: in exact
    arithmetic, for reference prices that are all at least epsilon, it
    starts with 0 (the empty pool) and its k-th further entry is the
    mean of the first k reference prices. *)
Theorem dummy_trace_is_running_mean (ref_prices : list Qc) :
  Forall (λ p : Qc, (near_zero <=? p)%num = true) ref_prices →
  dummy_amm_trace ref_prices = zero :: running_mean 0 zero ref_prices.
Proof.
  intros Hall. unfold dummy_amm_trace. f_equal.
  destruct ref_prices as [|p ref_prices]; [reflexivity|].
  apply Forall_cons in Hall as [Hp Hall]. cbn [dummy_amm_loop running_mean].
  assert (Hadd : snd (add_liquidity (new_amm default_fee_rate) one p) =
                 {| fee_rate := default_fee_rate; reserveA := one; reserveB := p;
                    K := (one * p)%num;
                    liquidity_shares := (zero + (one + p))%num |}) by reflexivity.
  rewrite Hadd.
  assert (Hsum : (zero + p)%num = p).
  { cbn [fadd Qc_Num]. rewrite ExactFacts.zero_is_0. ring. }
  rewrite Hsum. f_equal.
  apply (dummy_amm_loop_mean ref_prices _ 1 p);
    [lia | reflexivity | reflexivity | apply ExactFacts.leb_le, Hp | exact Hall].
Qed.

Lemma dummy_trace_is_running_mean_witness :
  dummy_amm_trace Cases.exact_prices
  = [zero; (of_int 2 / of_int 1)%Qc; (of_int 6 / of_int 2)%Qc; (of_int 15 / of_int 3)%Qc].
Proof.
  rewrite (dummy_trace_is_running_mean Cases.exact_prices).
  - repeat (f_equal; try (apply Qc_is_canon; reflexivity)).
  - repeat constructor.
Defined.

(* ================================================================== *)
(** ** Further properties of the environment *)

Section TickFacts.
Context {F : Type} `{Num F} {A : Type} `{Agent F A}.
Local Open Scope num_scope.

Lemma same_setup_refl (e : MarketEnvironment F A) : same_setup e e.
Proof. repeat split. Qed.

Lemma same_setup_trans (e1 e2 e3 : MarketEnvironment F A) :
  same_setup e1 e2 → same_setup e2 e3 → same_setup e1 e3.
Proof.
  intros (a1 & b1 & c1 & d1 & f1) (a2 & b2 & c2 & d2 & f2).
  repeat split; congruence.
Qed.

Lemma ledger_touched_same (nm : string) (e e' : MarketEnvironment F A) :
  rewards e' = rewards e → ledger_touched_at nm e e'.
Proof. intros Heq. split; intros; rewrite Heq; reflexivity. Qed.

Lemma ledger_touched_refl (nm : string) (e : MarketEnvironment F A) :
  ledger_touched_at nm e e.
Proof. apply ledger_touched_same. reflexivity. Qed.

(** The three mutating methods leave the fee rate alone. *)
Lemma swap_fee_rate (p : ConstantProductAMM F) (a : F) (d : string) :
  fee_rate (snd (swap p a d)) = fee_rate p.
Proof. exact (perform_fee_rate p (CallSwap a d)). Qed.

Lemma add_liquidity_fee_rate (p : ConstantProductAMM F) (a b : F) :
  fee_rate (snd (add_liquidity p a b)) = fee_rate p.
Proof. exact (perform_fee_rate p (CallAddLiquidity a b)). Qed.

Lemma remove_liquidity_fee_rate (p : ConstantProductAMM F) (f : F) :
  fee_rate (snd (remove_liquidity p f)) = fee_rate p.
Proof. exact (perform_fee_rate p (CallRemoveLiquidity f)). Qed.

(** [self.rewards[nm] += x], when the key is there. *)
Lemma add_reward_frame (e e' : MarketEnvironment F A) (nm : string) (x : F) :
  add_reward e nm x = Some e' →
  same_setup e e' ∧ ledger_touched_at nm e e'
  ∧ amm e' = amm e
  ∧ total_volume_tokenA e' = total_volume_tokenA e
  ∧ total_volume_tokenB e' = total_volume_tokenB e.
Proof.
  unfold add_reward. destruct (rewards e !! nm) as [r|] eqn:Hr; simpl; [|discriminate].
  intros [= <-]. split; [repeat split|]. split; [|repeat split].
  split; intros k; simpl.
  - destruct (decide (k = nm)) as [->|Hne].
    + rewrite lookup_insert_eq, Hr. split; eauto.
    + rewrite lookup_insert_ne by congruence. reflexivity.
  - intros Hne. rewrite lookup_insert_ne by congruence. reflexivity.
Qed.


(** What executing one action can change. *)
Lemma execute_frame (e e' : MarketEnvironment F A) (price : F) (nm : string)
    (a : action F) :
  execute e price nm a = Some e' →
  same_setup e e' ∧ ledger_touched_at nm e e'.
Proof.
  unfold execute.
  destruct (String.eqb (action_type a) "trade").
  { destruct (zero <? default zero (amount a));
      [|intros [= <-]; split; [apply same_setup_refl | apply ledger_touched_refl]].
    destruct (swap _ _ _) as [tokens p] eqn:Hswap.
    assert (Hfee : fee_rate p = fee_rate (amm e)).
    { replace p with (snd (swap (amm e) (default zero (amount a))
                             (default "buy"%string (direction a))))
        by (rewrite Hswap; reflexivity).
      apply swap_fee_rate. }
    destruct (String.eqb _ "buy").
    - destruct (add_reward _ _ _) as [e1|] eqn:E1; simpl; [|discriminate].
      intros [= <-]. apply add_reward_frame in E1 as ((a1 & b1 & c1 & d1 & f1) & L & _).
      split; [|exact L]. repeat split; simpl in *; congruence.
    - destruct (add_reward _ _ _) as [e1|] eqn:E1; simpl; [|discriminate].
      intros [= <-]. apply add_reward_frame in E1 as ((a1 & b1 & c1 & d1 & f1) & L & _).
      split; [|exact L]. repeat split; simpl in *; congruence. }
  destruct (String.eqb (action_type a) "add_liquidity").
  { destruct (amount_tokenA a) as [amountA|]; simpl; [|discriminate].
    destruct (amount_tokenB a) as [amountB|]; simpl; [|discriminate].
    destruct (_ && _); intros [= <-].
    - split; [|apply ledger_touched_same; reflexivity].
      repeat split. simpl. apply add_liquidity_fee_rate.
    - split; [apply same_setup_refl | apply ledger_touched_refl]. }
  destruct (String.eqb (action_type a) "remove_liquidity").
  { destruct (amount_tokenA a) as [fA|]; simpl; [|discriminate].
    destruct (amount_tokenB a) as [fB|]; simpl; [|discriminate].
    destruct (remove_liquidity _ _) as [[[outA outB]|] p] eqn:Hrm;
      assert (Hfee : fee_rate p = fee_rate (amm e))
        by (replace p with (snd (remove_liquidity (amm e) (pymin fA fB)))
              by (rewrite Hrm; reflexivity);
            apply remove_liquidity_fee_rate).
    - intros E1. apply add_reward_frame in E1 as ((a1 & b1 & c1 & d1 & f1) & L & _).
      split; [|exact L]. repeat split; simpl in *; congruence.
    - intros [= <-]. split; [|apply ledger_touched_same; reflexivity].
      repeat split. simpl. exact Hfee. }
  intros [= <-]. split; [apply same_setup_refl | apply ledger_touched_refl].
Qed.

End TickFacts.

Section RunFacts.
Context {F : Type} `{Num F} {A : Type} `{Agent F A}.
Local Open Scope num_scope.

(** The loop "Collect agent actions", from any starting dict and list. *)
Lemma collect_from (l : list A) (es : env_state F) :
  ∀ (actions0 : gmap string (action F)) (acted0 : list A),
    let r := foldl (λ '(actions, acted) ag,
                      let '(a, ag') := act ag es in
                      (<[name ag' := a]> actions, acted ++ [ag']))
                   (actions0, acted0) l in
    r.2 = acted0 ++ (acts_on l es).*2
    ∧ ∀ nm, r.1 !! nm =
            match last (filter (λ r, name r.2 = nm) (acts_on l es)) with
            | Some r => Some r.1
            | None => actions0 !! nm
            end.
Proof.
  induction l as [|ag l IH]; intros actions0 acted0; simpl.
  - split; [rewrite app_nil_r; reflexivity | reflexivity].
  - destruct (act ag es) as [a ag'] eqn:Hact.
    destruct (IH (<[name ag' := a]> actions0) (acted0 ++ [ag'])) as [IH2 IH1].
    split.
    + rewrite IH2, <- app_assoc. reflexivity.
    + intros nm. rewrite IH1. rewrite filter_cons. simpl.
      destruct (decide (name ag' = nm)) as [Heq|Hne].
      * rewrite last_cons. destruct (last _); [reflexivity|].
        rewrite Heq, lookup_insert_eq. reflexivity.
      * rewrite lookup_insert_ne by exact Hne. reflexivity.
Qed.

Lemma collect_acted (l : list A) (es : env_state F) :
  (collect l es).2 = (acts_on l es).*2.
Proof.
  pose proof (collect_from l es ∅ []) as Hfrom. cbv zeta in Hfrom.
  destruct Hfrom as [Hfrom _]. exact Hfrom.
Qed.



Lemma execute_all_frame (actions : gmap string (action F)) (price : F) (l : list A)
    (e e' : MarketEnvironment F A) :
  execute_all actions price l e = Some e' →
  same_setup e e' ∧ ∀ k, is_Some (rewards e' !! k) ↔ is_Some (rewards e !! k).
Proof.
  revert e. induction l as [|ag l IH]; intros e; simpl.
  - intros [= <-]. split; [apply same_setup_refl | reflexivity].
  - destruct (actions !! name ag) as [a|]; simpl; [|discriminate].
    destruct (execute e price (name ag) a) as [e1|] eqn:E1; simpl; [|discriminate].
    intros E2. apply IH in E2 as [S2 K2].
    apply execute_frame in E1 as [S1 [K1 _]].
    split; [exact (same_setup_trans _ _ _ S1 S2)|].
    intros k. rewrite K2. apply K1.
Qed.


(** A call of [step] at the horizon. *)
Lemma step_false (e e' : MarketEnvironment F A) :
  step e = Some (false, e') → e' = e ∧ (num_steps e <= current_step e)%nat.
Proof.
  unfold step. destruct (num_steps e <=? current_step e)%nat eqn:Hend.
  - intros [= <-]. split; [reflexivity | apply Nat.leb_le, Hend].
  - destruct (reference_prices e !! current_step e); simpl; [|discriminate].
    destruct (collect _ _) as [actions l].
    destruct (execute_all _ _ _ _); simpl; discriminate.
Qed.

(** A call of [step] before the horizon. *)
Lemma step_true_frame (e e' : MarketEnvironment F A) :
  step e = Some (true, e') →
  reference_prices e' = reference_prices e
  ∧ fee_rate (amm e') = fee_rate (amm e)
  ∧ agents e' = (collect (agents e)
                   (mkEnvState (get_price (amm e))
                      (default zero (reference_prices e !! current_step e))
                      (current_step e))).2
  ∧ (∀ k, is_Some (rewards e' !! k) ↔ is_Some (rewards e !! k)).
Proof.
  unfold step. destruct (num_steps e <=? current_step e)%nat; [discriminate|].
  destruct (reference_prices e !! current_step e) as [price|]; simpl; [|discriminate].
  destruct (collect _ _) as [actions l].
  destruct (execute_all _ _ _ _) as [e1|] eqn:E1; simpl; [|discriminate].
  intros [= <-]. apply execute_all_frame in E1 as [(a1 & b1 & c1 & d1 & f1) K1].
  simpl in *. auto.
Qed.

(** Where the loop of [run_simulation] stops. *)
Lemma run_loop_end (fuel : nat) :
  ∀ e e' : MarketEnvironment F A,
    run_loop fuel e = Some (Some e') →
    (current_step e <= num_steps e)%nat →
    current_step e' = num_steps e
    ∧ num_steps e' = num_steps e
    ∧ reference_prices e' = reference_prices e
    ∧ fee_rate (amm e') = fee_rate (amm e)
    ∧ length (agents e') = length (agents e).
Proof.
  induction fuel as [|fuel IH]; intros e e' Hrun Hle; [discriminate|].
  simpl in Hrun. destruct (step e) as [[[] e1]|] eqn:Hstep; [| |discriminate].
  - pose proof (step_true _ _ Hstep) as (Hc & Hn & Hlt).
    pose proof (step_true_frame _ _ Hstep) as (Hp & Hf & Ha & _).
    destruct (IH e1 e' Hrun) as (H1 & H2 & H3 & H4 & H5); [lia|].
    repeat split; try congruence.
    rewrite H5, Ha, collect_acted. unfold acts_on. rewrite !length_fmap. reflexivity.
  - injection Hrun as <-. apply step_false in Hstep as [-> Hge].
    repeat split. lia.
Qed.
End RunFacts.

(* ================================================================== *)
(** ** The heuristic agents *)

Section AgentFacts.
Context {F : Type} `{Num F} `{Neg F}.
Local Open Scope num_scope.

Lemma ArbitrageBot_act_cases (self : ArbitrageBot F) (es : env_state F) :
  let a := ArbitrageBot_act self es in
  a = trade_none
  ∨ ∃ d, (d = "buy" ∨ d = "sell")%string
         ∧ a = mkAction "trade" (Some d)
                 (Some (pymin (arb_max_trade_size self)
                          (fabs (reference_price es - amm_price es) * of_int 10)))
                 None None.
Proof.
  unfold ArbitrageBot_act.
  destruct (amm_price es <? near_zero); [left; reflexivity|].
  destruct (arb_threshold self <? _); [right; exists "buy"%string; auto|].
  destruct (arb_threshold self <? _); [right; exists "sell"%string; auto|].
  left; reflexivity.
Qed.

Lemma RandomTrader_act_cases (self : RandomTrader F) (es : env_state F) :
  let '(a, self') := RandomTrader_act self es in
  rnd_name self' = rnd_name self
  ∧ rnd_calls self' = S (rnd_calls self)
  ∧ (a = trade_none
     ∨ ∃ d v, (d = "buy" ∨ d = "sell")%string
              ∧ a = mkAction "trade" (Some d) (Some (v * rnd_max_trade_size self))
                      None None).
Proof.
  unfold RandomTrader_act.
  destruct (rnd_draws self (rnd_calls self)) as [[u v] buy].
  destruct (u <? rnd_trade_prob self); simpl.
  - split; [reflexivity|]. split; [reflexivity|]. right.
    exists (if buy then "buy" else "sell")%string, v. split; [|reflexivity].
    destruct buy; auto.
  - auto.
Qed.

Lemma BasicLiquidityProvider_act_cases (self : BasicLiquidityProvider F)
    (es : env_state F) :
  let '(a, self') := BasicLiquidityProvider_act self es in
  blp_name self' = blp_name self
  ∧ has_provided self' = true
  ∧ (if has_provided self
     then a = action_none
          ∨ a = mkAction "remove_liquidity" None None (Some (dec 5 1)) (Some (dec 5 1))
     else a = mkAction "add_liquidity" None None (Some (initial_liquidity self))
                (Some (initial_liquidity self * reference_price es))).
Proof.
  unfold BasicLiquidityProvider_act.
  destruct (has_provided self) eqn:Hp; simpl; [|auto].
  destruct (near_zero <? reference_price es); [|auto].
  destruct (remove_threshold self <? _); auto.
Qed.

Lemma heuristic_act_ok (ag : heuristic F) (es : env_state F) :
  name (act ag es).2 = name ag ∧ action_ok (act ag es).1 = true.
Proof.
  destruct ag as [b|r|l]; simpl.
  - split; [reflexivity|].
    destruct (ArbitrageBot_act_cases b es) as [->|(d & _ & ->)]; reflexivity.
  - pose proof (RandomTrader_act_cases r es) as Hc.
    destruct (RandomTrader_act r es) as [a r']. destruct Hc as (Hn & _ & Ha).
    split; [exact Hn|]. destruct Ha as [->|(d & v & _ & ->)]; reflexivity.
  - pose proof (BasicLiquidityProvider_act_cases l es) as Hc.
    destruct (BasicLiquidityProvider_act l es) as [a l']. destruct Hc as (Hn & _ & Ha).
    split; [exact Hn|].
    destruct (has_provided l); [destruct Ha as [->| ->]| rewrite Ha]; reflexivity.
Qed.
End AgentFacts.

Section LedgerFacts.
Context {F : Type} `{Num F} {A : Type} `{Agent F A}.
Local Open Scope num_scope.

(** The loop that zeroes the rewards, entry by entry. *)
Lemma zero_rewards_lookup (l : list A) (r : gmap string F) (nm : string) :
  zero_rewards l r !! nm
  = if decide (nm ∈ name <$> l) then Some zero else r !! nm.
Proof.
  unfold zero_rewards. revert r.
  induction l as [|ag l IH]; intros r.
  - rewrite decide_False by apply not_elem_of_nil. reflexivity.
  - cbn [foldl]. rewrite IH, fmap_cons.
    destruct (decide (nm ∈ name <$> l)) as [Hin|Hnin].
    + rewrite decide_True by (apply list_elem_of_further, Hin). reflexivity.
    + destruct (decide (nm = name ag)) as [->|Hne].
      * rewrite decide_True by apply list_elem_of_here.
        apply lookup_insert_eq.
      * rewrite decide_False.
        -- apply lookup_insert_ne. congruence.
        -- intros Hin. apply elem_of_cons in Hin as [?|?]; contradiction.
Qed.

(** The execution loop leaves the entries of everyone off the list. *)
Lemma execute_all_ledger (actions : gmap string (action F)) (price : F) (l : list A)
    (e e' : MarketEnvironment F A) (k : string) :
  execute_all actions price l e = Some e' →
  k ∉ name <$> l → rewards e' !! k = rewards e !! k.
Proof.
  revert e. induction l as [|ag l IH]; intros e; simpl.
  - intros [= <-] _. reflexivity.
  - destruct (actions !! name ag) as [a|]; simpl; [|discriminate].
    destruct (execute e price (name ag) a) as [e1|] eqn:E1; simpl; [|discriminate].
    intros E2 Hk. apply not_elem_of_cons in Hk as [Hne Hk].
    rewrite (IH e1 E2 Hk).
    apply execute_frame in E1 as [_ [_ L]]. apply L, Hne.
Qed.

(** With stable names, the roster after the agents have acted carries
    the names it carried before. *)
Lemma acted_names (l : list A) (es : env_state F) :
  (∀ ag es, name (act ag es).2 = name ag) →
  name <$> (collect l es).2 = name <$> l.
Proof.
  intros Hname. rewrite collect_acted. unfold acts_on.
  induction l as [|ag l IH]; [reflexivity|].
  rewrite !fmap_cons, IH, Hname. reflexivity.
Qed.



End LedgerFacts.

(** X8.  One call of [step]: when it returns [False] the environment
    is as it was and the step counter had reached the horizon; when it
    returns [True] the counter was below the horizon and is now one
    higher, while the horizon, the reference prices, the pool's fee
    rate and the size of the roster are as before. *)
Theorem step_advances_by_one {F : Type} `{Num F} {A : Type} `{Agent F A}
    (e e' : MarketEnvironment F A) (b : bool) :
  step e = Some (b, e') →
  if b then
    (current_step e < num_steps e)%nat
    ∧ current_step e' = S (current_step e)
    ∧ num_steps e' = num_steps e
    ∧ reference_prices e' = reference_prices e
    ∧ fee_rate (amm e') = fee_rate (amm e)
    ∧ length (agents e') = length (agents e)
  else e' = e ∧ (num_steps e <= current_step e)%nat.
Proof.
  destruct b; intros Hstep.
  - pose proof (step_true _ _ Hstep) as (Hc & Hn & Hlt).
    pose proof (step_true_frame _ _ Hstep) as (Hp & Hf & Ha & _).
    repeat split; try assumption.
    rewrite Ha, collect_acted. unfold acts_on. rewrite !length_fmap. reflexivity.
  - apply step_false, Hstep.
Qed.

Lemma step_advances_by_one_witness :
  match step Scenario.env_buyer with
  | Some (true, e') =>
      current_step e' = 1%nat ∧ fee_rate (amm e') = default_fee_rate
  | _ => False
  end.
Proof.
  pose proof (step_advances_by_one Scenario.env_buyer) as T.
  destruct (step Scenario.env_buyer) as [[[] e']|] eqn:E.
  - pose proof (T e' true eq_refl) as T'. cbv iota in T'.
    destruct T' as (_ & Hc & _ & _ & Hf & _).
    split; [exact Hc|]. rewrite Hf. reflexivity.
  - vm_compute in E. discriminate.
  - vm_compute in E. discriminate.
Defined.

(** X9.  When [run_simulation] returns, the step counter equals the
    horizon [num_steps]; the horizon, the reference prices, the pool's
    fee rate and the size of the roster are those of the start. *)
Theorem run_simulation_ends_at_horizon {F : Type} `{Num F} {A : Type} `{Agent F A}
    (e e' : MarketEnvironment F A) :
  run_simulation e = Some (Some e') →
  current_step e' = num_steps e
  ∧ num_steps e' = num_steps e
  ∧ reference_prices e' = reference_prices e
  ∧ fee_rate (amm e') = fee_rate (amm e)
  ∧ length (agents e') = length (agents e).
Proof.
  unfold run_simulation. intros Hrun.
  apply run_loop_end in Hrun; [exact Hrun|]. simpl. lia.
Qed.

Lemma run_simulation_ends_at_horizon_witness :
  match run_simulation Scenario.env_buyer with
  | Some (Some e') => current_step e' = 2%nat
  | _ => False
  end.
Proof.
  pose proof (run_simulation_ends_at_horizon Scenario.env_buyer) as T.
  destruct (run_simulation Scenario.env_buyer) as [[e'|]|] eqn:E.
  - destruct (T e' eq_refl) as (Hc & _). exact Hc.
  - vm_compute in E. discriminate.
  - vm_compute in E. discriminate.
Defined.



Section ExecuteFacts.
Context {F : Type} `{Num F} {A : Type} `{Agent F A}.
Local Open Scope num_scope.



Lemma remove_liquidity_result (p : ConstantProductAMM F) (f : F) :
  (remove_liquidity p f).1 = None ↔ (pymin f max_fraction <? zero) = true.
Proof.
  unfold remove_liquidity. destruct (pymin f max_fraction <? zero); simpl;
    split; congruence.
Qed.

Lemma with_amm_same (e : MarketEnvironment F A) : with_amm e (amm e) = e.
Proof. destruct e; reflexivity. Qed.
End ExecuteFacts.



(** X12.  The actions [step] passes over without any effect: one of
    a type other than the three it knows, a trade whose amount is
    missing, zero, negative or NaN, a deposit with an amount that is not
    positive, and a removal whose effective fraction is negative.  The
    environment after the action is the environment before it. *)
Theorem execute_ignores {F : Type} `{Num F} {A : Type} `{Agent F A}
    (e : MarketEnvironment F A) (price : F) (nm : string) (a : action F) :
  (action_type a ≠ "trade" ∧ action_type a ≠ "add_liquidity"
   ∧ action_type a ≠ "remove_liquidity")%string
  ∨ (action_type a = "trade"%string
     ∧ (zero <? default zero (amount a))%num = false)
  ∨ (action_type a = "add_liquidity"%string
     ∧ ∃ amountA amountB,
         amount_tokenA a = Some amountA ∧ amount_tokenB a = Some amountB
         ∧ ((zero <? amountA)%num && (zero <? amountB)%num) = false)
  ∨ (action_type a = "remove_liquidity"%string
     ∧ ∃ fA fB,
         amount_tokenA a = Some fA ∧ amount_tokenB a = Some fB
         ∧ (pymin (pymin fA fB) max_fraction <? zero)%num = true) →
  execute e price nm a = Some e.
Proof.
  unfold execute.
  intros [(Ht & Ha & Hr)|[(Ht & Hz)|[(Ha & x & y & HA & HB & Hz)|(Hr & x & y & HA & HB & Hz)]]].
  - apply String.eqb_neq in Ht, Ha, Hr. rewrite Ht, Ha, Hr. reflexivity.
  - rewrite Ht. simpl. rewrite Hz. reflexivity.
  - rewrite Ha, HA, HB. simpl. rewrite Hz. reflexivity.
  - rewrite Hr, HA, HB. simpl.
    pose proof (remove_liquidity_result (amm e) (pymin x y)) as [_ Hres].
    unfold remove_liquidity in *. rewrite Hz. f_equal. apply with_amm_same.
Qed.

Lemma execute_ignores_witness :
  execute Scenario.env_buyer 1.5%float "trader" Cases.unknown_action
    = Some Scenario.env_buyer
  ∧ execute Scenario.env_buyer 1.5%float "trader" Cases.empty_add
    = Some Scenario.env_buyer.
Proof.
  split.
  - apply (execute_ignores Scenario.env_buyer 1.5%float "trader" Cases.unknown_action).
    left. repeat split; discriminate.
  - apply (execute_ignores Scenario.env_buyer 1.5%float "trader" Cases.empty_add).
    right. right. left. split; [reflexivity|].
    exists 0%float, 5%float. repeat split.
Defined.

(** X13.  What executing one action can touch.  The roster, the
    reference prices, the horizon, the step counter and the pool's fee
    rate stay; the ledger keeps its keys and changes at most at the
    acting agent's name; the volume counters move only on a trade of a
    positive amount, which adds the amount paid in to the counter of
    token B (buy) or of token A (any other direction), whatever the pool
    returned; a trade of an amount that is not positive changes nothing
    at all; a deposit or an unknown action leaves the ledger as it
    is. *)
Theorem execute_footprint {F : Type} `{Num F} {A : Type} `{Agent F A}
    (e e' : MarketEnvironment F A) (price : F) (nm : string) (a : action F) :
  execute e price nm a = Some e' →
  same_setup e e' ∧ ledger_touched_at nm e e'
  ∧ (action_type a ≠ "trade"%string →
     total_volume_tokenA e' = total_volume_tokenA e
     ∧ total_volume_tokenB e' = total_volume_tokenB e)
  ∧ (action_type a = "trade"%string →
     (zero <? default zero (amount a))%num = true →
     if String.eqb (default "buy"%string (direction a)) "buy"
     then total_volume_tokenA e' = total_volume_tokenA e
          ∧ total_volume_tokenB e' = (total_volume_tokenB e + default zero (amount a))%num
     else total_volume_tokenA e' = (total_volume_tokenA e + default zero (amount a))%num
          ∧ total_volume_tokenB e' = total_volume_tokenB e)
  ∧ (action_type a = "trade"%string →
     (zero <? default zero (amount a))%num = false → e' = e)
  ∧ (action_type a ≠ "trade"%string → action_type a ≠ "remove_liquidity"%string →
     rewards e' = rewards e).
Proof.
  intros Hex. destruct (execute_frame _ _ _ _ _ Hex) as [Hs Hl].
  split; [exact Hs|]. split; [exact Hl|]. revert Hex. unfold execute.
  destruct (String.eqb_spec (action_type a) "trade") as [Ht|Ht].
  { split; [intros Hx; contradiction|].
    split; [|split; [|intros Hx; contradiction]];
      [|intros _ Hpos; rewrite Hpos in Hex; injection Hex as <-; reflexivity].
    intros _ Hpos. rewrite Hpos in Hex.
    destruct (swap _ _ _) as [tokens p].
    destruct (String.eqb _ "buy").
    - destruct (add_reward _ _ _) as [e1|] eqn:E1; simpl in Hex; [|discriminate].
      injection Hex as <-. apply add_reward_frame in E1 as (_ & _ & _ & HA & HB).
      simpl in *. rewrite HB. auto.
    - destruct (add_reward _ _ _) as [e1|] eqn:E1; simpl in Hex; [|discriminate].
      injection Hex as <-. apply add_reward_frame in E1 as (_ & _ & _ & HA & HB).
      simpl in *. rewrite HA. auto. }
  intros Hex.
  split; [intros _ | split; [intros Hx; contradiction
                            | split; [intros Hx; contradiction | intros _]]].
  - destruct (String.eqb (action_type a) "add_liquidity").
    { destruct (amount_tokenA a); simpl in Hex; [|discriminate].
      destruct (amount_tokenB a); simpl in Hex; [|discriminate].
      destruct (_ && _); injection Hex as <-; auto. }
    destruct (String.eqb (action_type a) "remove_liquidity");
      [|injection Hex as <-; auto].
    destruct (amount_tokenA a); simpl in Hex; [|discriminate].
    destruct (amount_tokenB a); simpl in Hex; [|discriminate].
    destruct (remove_liquidity _ _) as [[[outA outB]|] p].
    + apply add_reward_frame in Hex as (_ & _ & _ & HA & HB). auto.
    + injection Hex as <-. auto.
  - intros Hr. apply String.eqb_neq in Hr. rewrite Hr in Hex.
    destruct (String.eqb (action_type a) "add_liquidity");
      [|injection Hex as <-; reflexivity].
    destruct (amount_tokenA a); simpl in Hex; [|discriminate].
    destruct (amount_tokenB a); simpl in Hex; [|discriminate].
    destruct (_ && _); injection Hex as <-; reflexivity.
Qed.

Lemma execute_footprint_witness :
  match execute Scenario.env_buyer 1.5%float "trader" Scenario.buy_7 with
  | Some e' => total_volume_tokenB e' = 7%float ∧ fee_rate (amm e') = default_fee_rate
  | None => False
  end.
Proof.
  pose proof (execute_footprint Scenario.env_buyer) as T.
  destruct (execute Scenario.env_buyer 1.5%float "trader" Scenario.buy_7)
    as [e'|] eqn:E.
  - destruct (T e' _ _ _ E) as ((_ & _ & _ & _ & Hf) & _ & _ & Hv & _ & _).
    destruct (Hv eq_refl eq_refl) as [_ HB]. split.
    + rewrite HB. reflexivity.
    + rewrite Hf. reflexivity.
  - vm_compute in E. discriminate.
Defined.

(** X14.  A tick changes the ledger only at the names of the roster:
    the ledger keeps its keys, every entry under a name no agent carries
    is what it was, and the roster carries the same names, in the same
    order, after the tick (for agents that keep their names when they
    act). *)
Theorem step_touches_roster_only {F : Type} `{Num F} {A : Type} `{Agent F A}
    (e e' : MarketEnvironment F A) :
  (∀ ag es, name (act ag es).2 = name ag) →
  step e = Some (true, e') →
  name <$> agents e' = name <$> agents e
  ∧ (∀ k, is_Some (rewards e' !! k) ↔ is_Some (rewards e !! k))
  ∧ (∀ k, k ∉ name <$> agents e → rewards e' !! k = rewards e !! k).
Proof.
  intros Hname Hstep.
  pose proof (step_true_frame _ _ Hstep) as (_ & _ & Ha & Hk).
  split; [rewrite Ha; apply acted_names, Hname|]. split; [exact Hk|].
  intros k Hnot. revert Hstep. unfold step.
  destruct (num_steps e <=? current_step e)%nat; [discriminate|].
  destruct (reference_prices e !! current_step e) as [price|]; simpl; [|discriminate].
  pose proof (acted_names (agents e)
                (mkEnvState (get_price (amm e)) price (current_step e)) Hname) as Hn.
  destruct (collect _ _) as [actions l]. simpl in Hn.
  destruct (execute_all _ _ _ _) as [e1|] eqn:E1; simpl; [|discriminate].
  intros [= <-]. simpl.
  rewrite (execute_all_ledger _ _ _ _ _ k E1) by (rewrite Hn; exact Hnot).
  reflexivity.
Qed.

Lemma step_touches_roster_only_witness :
  match step Scenario.env_buyer with
  | Some (true, e') =>
      name <$> agents e' = ["trader"%string] ∧ rewards e' !! "lp"%string = None
  | _ => False
  end.
Proof.
  pose proof (step_touches_roster_only Scenario.env_buyer) as T.
  destruct (step Scenario.env_buyer) as [[[] e']|] eqn:E.
  - destruct (T e' (λ ag es, eq_refl) eq_refl) as (Hn & _ & Hk).
    split; [exact Hn|]. rewrite Hk; [reflexivity|].
    intros Hin. apply list_elem_of_singleton in Hin. discriminate.
  - vm_compute in E. discriminate.
  - vm_compute in E. discriminate.
Defined.

(** X15.  The dict of collected actions is keyed by name, so agents
    that share a name share an entry: what [step] finds under a name is
    the action of the last agent of the roster that carries it, and
    every agent has then acted exactly once, in roster order.  With two
    agents under one name, the second agent's action is executed
    twice and the first one's never. *)
Theorem collect_last_wins {F : Type} `{Num F} {A : Type} `{Agent F A}
    (l : list A) (es : env_state F) :
  (collect l es).2 = (acts_on l es).*2
  ∧ (∀ nm, (collect l es).1 !! nm
           = fst <$> last (filter (λ r, name r.2 = nm) (acts_on l es)))
  ∧ (∀ ag1 ag2, l = [ag1; ag2] →
       name (act ag1 es).2 = name (act ag2 es).2 →
       ∀ price e,
         execute_all (collect l es).1 price (collect l es).2 e
         = (e1 ← execute e price (name (act ag2 es).2) (act ag2 es).1;
            execute e1 price (name (act ag2 es).2) (act ag2 es).1)).
Proof.
  pose proof (collect_from l es ∅ []) as Hfrom. cbv zeta in Hfrom.
  destruct Hfrom as [Hacted Hlook].
  assert (Hl : ∀ nm, (collect l es).1 !! nm
                     = fst <$> last (filter (λ r, name r.2 = nm) (acts_on l es))).
  { intros nm. unfold collect. rewrite (Hlook nm).
    destruct (last _); [reflexivity | apply lookup_empty]. }
  split; [exact Hacted|]. split; [exact Hl|].
  intros ag1 ag2 -> Hsame price e.
  assert (Hacted' : (collect [ag1; ag2] es).2 = [(act ag1 es).2; (act ag2 es).2])
    by exact Hacted.
  rewrite Hacted'. cbn [execute_all]. rewrite Hsame, (Hl (name (act ag2 es).2)).
  unfold acts_on. cbn [fmap list_fmap]. rewrite !filter_cons, filter_nil.
  cbn [snd]. rewrite decide_True by exact Hsame.
  rewrite decide_True by reflexivity. cbn [last fmap option_fmap option_map fst mbind option_bind].
  destruct (execute e price _ _) as [e1|]; [|reflexivity]. cbn [mbind option_bind].
  destruct (execute e1 price _ _) as [e2|]; reflexivity.
Qed.

Lemma collect_last_wins_witness :
  (collect Cases.twins Scenario.obs_1).1 !! "twin"%string = Some Scenario.remove_half.
Proof.
  destruct (collect_last_wins Cases.twins Scenario.obs_1) as (_ & Hl & _).
  rewrite Hl. reflexivity.
Defined.

(** X16.  The reward ledger after construction and after [reset]: a
    new environment holds exactly one entry, 0, for every name on the
    roster and starts at step 0 with the number of reference prices as
    its horizon; [reset] sets the entry of every name on the roster to
    0 and leaves every other entry as it is. *)
Theorem ledger_after_init_and_reset {F : Type} `{Num F} {A : Type} `{Agent F A}
    (p : ConstantProductAMM F) (l : list A) (prices : list F)
    (e : MarketEnvironment F A) (nm : string) :
  rewards (new_env p l prices) !! nm
    = (if decide (nm ∈ name <$> l) then Some zero else None)
  ∧ current_step (new_env p l prices) = 0%nat
  ∧ num_steps (new_env p l prices) = length prices
  ∧ rewards (reset e) !! nm
    = (if decide (nm ∈ name <$> agents e) then Some zero else rewards e !! nm)
  ∧ agents (reset e) = agents e.
Proof.
  split; [|split; [reflexivity|split; [reflexivity|split; [|reflexivity]]]].
  - simpl. rewrite zero_rewards_lookup, lookup_empty. reflexivity.
  - simpl. apply zero_rewards_lookup.
Qed.

(** X17.  Whatever the observation, a heuristic agent (arbitrage bot,
    random trader or basic liquidity provider) keeps its name when it
    acts and returns an action [step] can read: its type is one of
    "none", "trade", "add_liquidity" and "remove_liquidity", a trade
    carries an amount and the direction "buy" or "sell", and a
    liquidity action carries both of its amounts. *)
Theorem heuristic_actions_well_formed {F : Type} `{Num F} `{Neg F}
    (ag : heuristic F) (es : env_state F) :
  name (act ag es).2 = name ag
  ∧ action_ok (act ag es).1 = true
  ∧ action_type (act ag es).1
      ∈ ["none"; "trade"; "add_liquidity"; "remove_liquidity"]%string
  ∧ (action_type (act ag es).1 = "trade"%string →
     is_Some (amount (act ag es).1)
     ∧ direction (act ag es).1 ∈ [Some "buy"; Some "sell"]%string).
Proof.
  destruct (heuristic_act_ok ag es) as [Hn Hok].
  split; [exact Hn|]. split; [exact Hok|].
  destruct ag as [b|r|l]; simpl.
  - destruct (ArbitrageBot_act_cases b es) as [->|(d & [-> | ->] & ->)]; simpl;
      (split; [set_solver | intros Ht; first [discriminate Ht | split; [eauto | set_solver]]]).
  - pose proof (RandomTrader_act_cases r es) as Hc.
    destruct (RandomTrader_act r es) as [a r']. destruct Hc as (_ & _ & Ha). simpl.
    destruct Ha as [->|(d & v & [-> | ->] & ->)]; simpl;
      (split; [set_solver | intros Ht; first [discriminate Ht | split; [eauto | set_solver]]]).
  - pose proof (BasicLiquidityProvider_act_cases l es) as Hc.
    destruct (BasicLiquidityProvider_act l es) as [a l']. destruct Hc as (_ & _ & Ha).
    simpl. destruct (has_provided l); [destruct Ha as [-> | ->] | rewrite Ha]; simpl;
      (split; [set_solver | intros Ht; discriminate]).
Qed.

(** X18.  An arbitrage bot shown the price of a pool whose reserve of
    token A is below 1e-12 (a fresh pool, for one) does nothing, at any
    reference price: [get_price] reports 0 for such a pool, and the bot
    skips a price below 1e-12. *)
Theorem ArbitrageBot_idle_on_empty_pool {F : Type} `{NumLaws F} `{Neg F}
    (self : ArbitrageBot F) (p : ConstantProductAMM F) (price : F) (t : nat) :
  (reserveA p <? near_zero)%num = true →
  ArbitrageBot_act self (mkEnvState (get_price p) price t) = trade_none.
Proof.
  intros Hempty. unfold ArbitrageBot_act, get_price. simpl.
  rewrite Hempty, zero_lt_near_zero. reflexivity.
Qed.

Lemma ArbitrageBot_idle_on_empty_pool_witness :
  ArbitrageBot_act Cases.arb_bot
    (mkEnvState (get_price Scenario.pool_empty) (dec 12 1) 0) = trade_none.
Proof.
  exact (ArbitrageBot_idle_on_empty_pool Cases.arb_bot Scenario.pool_empty
           (dec 12 1) 0 eq_refl).
Defined.

(** X19.  The amount an arbitrage bot trades never exceeds its
    [max_trade_size], and it trades only when shown a pool price of at
    least 1e-12. *)
Theorem ArbitrageBot_trade_bounded {F : Type} `{NumLaws F} `{Neg F}
    (self : ArbitrageBot F) (es : env_state F) :
  (∀ x, action_type (ArbitrageBot_act self es) = "trade"%string →
        amount (ArbitrageBot_act self es) = Some x →
        (arb_max_trade_size self <? x)%num = false)
  ∧ (action_type (ArbitrageBot_act self es) = "trade"%string →
     (amm_price es <? near_zero)%num = false).
Proof.
  assert (Hmin : ∀ m v : F, (m <? pymin m v)%num = false).
  { intros m v. unfold pymin. destruct (v <? m)%num eqn:Hv.
    - apply ltb_asym, Hv.
    - destruct (m <? m)%num eqn:Hm; [|reflexivity].
      rewrite (ltb_asym _ _ Hm) in Hm. discriminate. }
  split.
  - intros x Ht Hx.
    destruct (ArbitrageBot_act_cases self es) as [Hc|(d & _ & Hc)];
      rewrite Hc in Ht, Hx; [discriminate Ht|].
    injection Hx as <-. apply Hmin.
  - unfold ArbitrageBot_act. destruct (amm_price es <? near_zero)%num; [|reflexivity].
    intros Ht. discriminate Ht.
Qed.

Lemma ArbitrageBot_trade_bounded_witness :
  ∃ x, amount (ArbitrageBot_act Cases.arb_bot Cases.obs_cheap) = Some x
       ∧ (arb_max_trade_size Cases.arb_bot <? x)%num = false.
Proof.
  eexists. split; [reflexivity|].
  destruct (ArbitrageBot_trade_bounded Cases.arb_bot Cases.obs_cheap) as [Hb _].
  exact (Hb _ eq_refl eq_refl).
Defined.

(** X20.  In exact arithmetic, an arbitrage bot with a threshold that
    is not negative trades towards the reference price: it buys token A
    from the pool only when the pool's price is strictly below the
    reference price, and sells only when it is strictly above. *)
Theorem ArbitrageBot_trades_towards_reference (self : ArbitrageBot Qc)
    (es : env_state Qc) :
  (0 <= arb_threshold self)%Qc →
  (direction (ArbitrageBot_act self es) = Some "buy"%string →
   (amm_price es < reference_price es)%Qc)
  ∧ (direction (ArbitrageBot_act self es) = Some "sell"%string →
     (reference_price es < amm_price es)%Qc).
Proof.
  intros Hth. unfold ArbitrageBot_act.
  destruct (amm_price es <? near_zero)%num eqn:Hamm;
    [split; intros Hx; cbn [direction trade_none] in Hx; discriminate Hx|].
  cbn [fltb fsub fdiv Qc_Num] in *. unfold fneg, Qc_Neg.
  apply ExactFacts.ltb_ge in Hamm.
  assert (Hpos : (0 < amm_price es)%Qc)
    by exact (Qclt_le_trans _ _ _ ExactOrder.near_zero_pos Hamm).
  set (d := (reference_price es - amm_price es)%Qc).
  assert (Hd : (d = d / amm_price es * amm_price es)%Qc)
    by (field; apply ExactOrder.pos_nonzero, Hpos).
  destruct (Exact.ltb (arb_threshold self) (d / amm_price es)) eqn:Hbuy.
  { split; [intros _ | intros Hx; cbn [direction trade_none] in Hx; discriminate Hx].
    apply ExactFacts.ltb_lt in Hbuy.
    assert (H0 : (0 < d)%Qc).
    { rewrite Hd. apply ExactOrder.mul_pos; [|exact Hpos].
      exact (Qcle_lt_trans _ _ _ Hth Hbuy). }
    apply Qclt_minus_iff. exact H0. }
  destruct (Exact.ltb (arb_threshold self) (- (d / amm_price es))) eqn:Hsell;
    [|split; intros Hx; cbn [direction trade_none] in Hx; discriminate Hx].
  split; [intros Hx; cbn [direction trade_none] in Hx; discriminate Hx | intros _].
  apply ExactFacts.ltb_lt in Hsell.
  assert (H0 : (0 < - d)%Qc).
  { replace (- d)%Qc with (- (d / amm_price es) * amm_price es)%Qc
      by (field; apply ExactOrder.pos_nonzero, Hpos).
    apply ExactOrder.mul_pos; [|exact Hpos].
    exact (Qcle_lt_trans _ _ _ Hth Hsell). }
  apply Qclt_minus_iff. replace (amm_price es + - reference_price es)%Qc with (- d)%Qc
    by (unfold d; ring).
  exact H0.
Qed.

Lemma ArbitrageBot_trades_towards_reference_witness :
  direction (ArbitrageBot_act Cases.exact_arb_bot Cases.exact_obs_cheap)
    = Some "buy"%string
  ∧ (amm_price Cases.exact_obs_cheap < reference_price Cases.exact_obs_cheap)%Qc.
Proof.
  split; [vm_compute; reflexivity|].
  apply (ArbitrageBot_trades_towards_reference Cases.exact_arb_bot Cases.exact_obs_cheap).
  - apply ExactFacts.leb_le. vm_compute. reflexivity.
  - vm_compute. reflexivity.
Defined.

Section ProviderFacts.
Context {F : Type} `{Num F}.

(** Once it has provided, a basic liquidity provider only ever passes
    or removes half. *)
Lemma BasicLiquidityProvider_after (obs : list (env_state F)) :
  ∀ self : BasicLiquidityProvider F,
    has_provided self = true →
    Forall (λ a, a = action_none
                 ∨ a = mkAction "remove_liquidity" None None
                         (Some (dec 5 1)) (Some (dec 5 1)))
           (run_agent self obs).
Proof.
  induction obs as [|es obs IH]; intros self Hp; [constructor|].
  cbn [run_agent]. change (act self es) with (BasicLiquidityProvider_act self es).
  pose proof (BasicLiquidityProvider_act_cases self es) as Hc.
  destruct (BasicLiquidityProvider_act self es) as [a self'].
  destruct Hc as (_ & Hp' & Ha). rewrite Hp in Ha.
  constructor; [exact Ha | apply IH, Hp'].
Qed.
End ProviderFacts.

(** X21.  A basic liquidity provider deposits exactly once.  On any
    sequence of observations, a provider that has not yet provided
    answers the first with a deposit of [initial_liquidity] of token A
    and [initial_liquidity * reference_price] of token B, and every
    later one with either no action or the removal of the fraction 0.5;
    it never deposits again. *)
Theorem BasicLiquidityProvider_deposits_once {F : Type} `{Num F}
    (self : BasicLiquidityProvider F) (es : env_state F) (obs : list (env_state F)) :
  has_provided self = false →
  ∃ later,
    run_agent self (es :: obs)
    = mkAction "add_liquidity" None None (Some (initial_liquidity self))
        (Some (initial_liquidity self * reference_price es)%num) :: later
    ∧ length later = length obs
    ∧ Forall (λ a, a = action_none
                   ∨ a = mkAction "remove_liquidity" None None
                           (Some (dec 5 1)) (Some (dec 5 1))) later
    ∧ Forall (λ a, action_type a ≠ "add_liquidity"%string) later.
Proof.
  intros Hp. cbn [run_agent].
  change (act self es) with (BasicLiquidityProvider_act self es).
  pose proof (BasicLiquidityProvider_act_cases self es) as Hc.
  destruct (BasicLiquidityProvider_act self es) as [a self'].
  destruct Hc as (_ & Hp' & Ha). rewrite Hp in Ha. subst a.
  exists (run_agent self' obs). split; [reflexivity|].
  pose proof (BasicLiquidityProvider_after obs self' Hp') as Hlater.
  split; [|split; [exact Hlater|]].
  - clear Hlater Hp'. revert self'. induction obs as [|es' obs IH]; intros self';
      [reflexivity|].
    cbn [run_agent]. destruct (act self' es') as [a' self'']. simpl.
    rewrite IH. reflexivity.
  - eapply Forall_impl; [exact Hlater|].
    intros a [-> | ->]; discriminate.
Qed.

Lemma BasicLiquidityProvider_deposits_once_witness :
  ∃ later,
    run_agent Cases.basic_lp Cases.observations
    = mkAction "add_liquidity" None None (Some 500%float)
        (Some (500 * dec 12 1)%float) :: later
    ∧ length later = 2%nat.
Proof.
  destruct (BasicLiquidityProvider_deposits_once Cases.basic_lp
              (mkEnvState 0%float (dec 12 1) 0)
              [mkEnvState (dec 12 1) (dec 2 0) 1; mkEnvState (dec 12 1) (dec 12 1) 2]
              eq_refl) as (later & Hrun & Hlen & _).
  exists later. split; [exact Hrun | exact Hlen].
Defined.

(** X22.  The first action of a basic liquidity provider, executed on
    an empty or degenerate pool, when [initial_liquidity] is at least
    1e-12 and both it and [initial_liquidity * reference_price] are
    positive: no exception is raised, the ledger is not touched, the pool
    then holds [initial_liquidity] of token A and
    [initial_liquidity * reference_price] of token B, and quotes
    [(initial_liquidity * reference_price) / initial_liquidity],
    computed in the arithmetic at hand.  In exact arithmetic that quote
    is exactly the reference price. *)
Theorem first_deposit_sets_reference_price :
  (∀ (F : Type) (N : Num F), NumLaws F →
     ∀ (A : Type) (e : MarketEnvironment F A) (self : BasicLiquidityProvider F)
       (es : env_state F) (nm : string),
       has_provided self = false →
       ((reserveA (amm e) <? near_zero) || (reserveB (amm e) <? near_zero))%num = true →
       (near_zero <=? initial_liquidity self)%num = true →
       (zero <? initial_liquidity self)%num = true →
       (zero <? initial_liquidity self * reference_price es)%num = true →
       ∃ e', execute e (reference_price es) nm (BasicLiquidityProvider_act self es).1
             = Some e'
             ∧ reserveA (amm e') = initial_liquidity self
             ∧ reserveB (amm e') = (initial_liquidity self * reference_price es)%num
             ∧ get_price (amm e')
               = (initial_liquidity self * reference_price es / initial_liquidity self)%num
             ∧ rewards e' = rewards e)
  ∧ (∀ (A : Type) (e : MarketEnvironment Qc A) (self : BasicLiquidityProvider Qc)
       (es : env_state Qc) (nm : string),
       has_provided self = false →
       ((reserveA (amm e) <? near_zero) || (reserveB (amm e) <? near_zero))%num = true →
       (near_zero <=? initial_liquidity self)%num = true →
       (zero <? reference_price es)%num = true →
       ∃ e', execute e (reference_price es) nm (BasicLiquidityProvider_act self es).1
             = Some e'
             ∧ reserveA (amm e') = initial_liquidity self
             ∧ get_price (amm e') = reference_price es
             ∧ rewards e' = rewards e).
Proof.
  assert (Hgen : ∀ (F : Type) (N : Num F), NumLaws F →
     ∀ (A : Type) (e : MarketEnvironment F A) (self : BasicLiquidityProvider F)
       (es : env_state F) (nm : string),
       has_provided self = false →
       ((reserveA (amm e) <? near_zero) || (reserveB (amm e) <? near_zero))%num = true →
       (near_zero <=? initial_liquidity self)%num = true →
       (zero <? initial_liquidity self)%num = true →
       (zero <? initial_liquidity self * reference_price es)%num = true →
       ∃ e', execute e (reference_price es) nm (BasicLiquidityProvider_act self es).1
             = Some e'
             ∧ reserveA (amm e') = initial_liquidity self
             ∧ reserveB (amm e') = (initial_liquidity self * reference_price es)%num
             ∧ get_price (amm e')
               = (initial_liquidity self * reference_price es / initial_liquidity self)%num
             ∧ rewards e' = rewards e).
  { intros F N L A e self es nm Hp Hempty Hinit HA HB.
    unfold BasicLiquidityProvider_act. rewrite Hp. cbn [negb fst].
    unfold execute. cbn [action_type amount_tokenA amount_tokenB String.eqb Ascii.eqb
                         Bool.eqb mbind option_bind].
    rewrite HA, HB. cbn [andb].
    eexists. split; [reflexivity|].
    unfold add_liquidity. rewrite Hempty.
    cbn [snd with_amm amm reserveA reserveB rewards].
    split; [reflexivity|]. split; [reflexivity|]. split; [|reflexivity].
    unfold get_price. cbn [reserveA reserveB].
    rewrite (leb_not_ltb _ _ Hinit). reflexivity. }
  split; [exact Hgen|].
  intros A e self es nm Hp Hempty Hinit Hprice.
  pose proof (ExactOrder.above_near_zero_pos _ Hinit) as Hi.
  assert (Hp0 : (0 < reference_price es)%Qc).
  { apply ExactFacts.ltb_lt in Hprice. rewrite ExactFacts.zero_is_0 in Hprice.
    exact Hprice. }
  destruct (Hgen Qc _ _ A e self es nm Hp Hempty Hinit) as (e' & Hex & HrA & _ & Hq & Hr).
  - apply ExactFacts.ltb_lt. rewrite ExactFacts.zero_is_0. exact Hi.
  - apply ExactFacts.ltb_lt. rewrite ExactFacts.zero_is_0.
    apply ExactOrder.mul_pos; assumption.
  - exists e'. split; [exact Hex|]. split; [exact HrA|]. split; [|exact Hr].
    rewrite Hq. cbn [fmul fdiv Qc_Num]. field. apply ExactOrder.pos_nonzero, Hi.
Qed.

Lemma first_deposit_sets_reference_price_witness :
  (∃ e', execute Cases.exact_env_fresh (dec 12 1) "BasicLP"
           (BasicLiquidityProvider_act Cases.exact_basic_lp Cases.exact_obs_fresh).1
         = Some e'
         ∧ get_price (amm e') = dec 12 1)
  ∧ (∃ e', execute Cases.env_fresh (dec 1 1) "BasicLP"
             (BasicLiquidityProvider_act Cases.basic_lp_3 Cases.obs_fresh).1
           = Some e'
           ∧ get_price (amm e') = (3 * dec 1 1 / 3)%float).
Proof.
  split.
  - destruct (proj2 first_deposit_sets_reference_price _ Cases.exact_env_fresh
                Cases.exact_basic_lp Cases.exact_obs_fresh "BasicLP"%string)
      as (e' & Hex & _ & Hprice & _); try (vm_compute; reflexivity).
    exists e'. split; [exact Hex | exact Hprice].
  - destruct (proj1 first_deposit_sets_reference_price float _ _ _ Cases.env_fresh
                Cases.basic_lp_3 Cases.obs_fresh "BasicLP"%string)
      as (e' & Hex & _ & _ & Hprice & _); try (vm_compute; reflexivity).
    exists e'. split; [exact Hex | exact Hprice].
Defined.

(* ================================================================== *)
(** ** Further properties of the Q-policy *)

Section ShapeFacts.
Context {F : Type} `{Num F}.
Local Open Scope num_scope.

(** Where [_discretize_state] lands. *)
Lemma discretize_range (self : SimpleQPolicy F) (es : env_state F) (s : nat * nat) :
  _discretize_state self es = Some s →
  (s.1 <= num_price_buckets self - 1)%nat
  ∧ (s.2 < num_time_buckets self)%nat
  ∧ s.2 = (step_index es mod num_time_buckets self)%nat.
Proof.
  unfold _discretize_state.
  destruct (floordiv_int _ _) as [bucket|]; simpl; [|discriminate].
  destruct (num_time_buckets self =? 0)%nat eqn:HT; [discriminate|].
  apply Nat.eqb_neq in HT. intros [= <-]. simpl.
  split; [lia|]. split; [apply Nat.mod_upper_bound, HT | reflexivity].
Qed.

(** A table of the right shape has a row of three at every state in
    range. *)
Lemma well_shaped_row (self : SimpleQPolicy F) (s : nat * nat) :
  well_shaped self →
  (s.1 < num_price_buckets self)%nat → (s.2 < num_time_buckets self)%nat →
  ∃ q0 q1 q2, q_row (q_table self) s = Some [q0; q1; q2].
Proof.
  intros [Hlen Hplanes] H1 H2. unfold q_row.
  destruct (lookup_lt_is_Some_2 (q_table self) s.1) as [plane Hplane]; [lia|].
  rewrite Hplane. simpl.
  rewrite Forall_lookup in Hplanes. destruct (Hplanes _ _ Hplane) as [HT Hrows].
  destruct (lookup_lt_is_Some_2 plane s.2) as [row Hrow]; [lia|].
  rewrite Hrow. rewrite Forall_lookup in Hrows. pose proof (Hrows _ _ Hrow) as H3.
  destruct row as [|q0 [|q1 [|q2 [|q3 row]]]]; try discriminate H3.
  eauto.
Qed.

(** Writing one entry keeps the shape. *)
Lemma q_set_shape (q : list (list (list F))) (s : nat * nat) (a : nat) (v : F)
    (P T : nat) :
  length q = P
  ∧ Forall (λ plane, length plane = T
                     ∧ Forall (λ row : list F, length row = 3%nat) plane) q →
  length (q_set q s a v) = P
  ∧ Forall (λ plane, length plane = T
                     ∧ Forall (λ row : list F, length row = 3%nat) plane)
           (q_set q s a v).
Proof.
  intros [Hlen Hplanes]. unfold q_set. split; [rewrite length_alter; exact Hlen|].
  rewrite Forall_lookup in *. intros i plane Hi.
  destruct (decide (i = s.1)) as [->|Hne].
  - rewrite list_lookup_alter_eq in Hi.
    destruct (q !! s.1) as [plane0|] eqn:Hq; [|discriminate].
    injection Hi as <-. destruct (Hplanes _ _ Hq) as [HT Hrows].
    split; [rewrite length_alter; exact HT|].
    rewrite Forall_lookup in *. intros j row Hj.
    destruct (decide (j = s.2)) as [->|Hne].
    + rewrite list_lookup_alter_eq in Hj.
      destruct (plane0 !! s.2) as [row0|] eqn:Hp; [|discriminate].
      injection Hj as <-. rewrite length_insert. exact (Hrows _ _ Hp).
    + rewrite list_lookup_alter_ne in Hj by congruence. exact (Hrows _ _ Hj).
  - rewrite list_lookup_alter_ne in Hi by congruence. exact (Hplanes _ _ Hi).
Qed.

(** [np.argmax] answers with an index of the row. *)
Lemma argmax_from_range (row : list F) :
  ∀ (mp : F) (best i : nat),
    (best < i)%nat → (argmax_from mp best i row < i + length row)%nat.
Proof.
  induction row as [|x row IH]; intros mp best i Hb; simpl; [lia|].
  destruct (negb (x <=? mp)).
  - destruct (isnan x); [lia|]. specialize (IH x i (S i)). lia.
  - specialize (IH mp best (S i)). lia.
Qed.

Lemma np_argmax_range (row : list F) (a : nat) :
  np_argmax row = Some a → (a < length row)%nat.
Proof.
  destruct row as [|x row]; simpl; [discriminate|].
  intros [= <-]. destruct (isnan x); [lia|].
  pose proof (argmax_from_range row x 0 1). lia.
Qed.

(** A new policy's table has its shape. *)
Lemma new_policy_shape (P T : nat) (al ga ep : F) :
  well_shaped (new_policy P T al ga ep).
Proof.
  unfold well_shaped. simpl. split; [apply length_replicate|].
  apply Forall_replicate. split; [apply length_replicate|].
  apply Forall_replicate. reflexivity.
Qed.

(** What [select_action] hands back. *)
Lemma select_action_cases (self self' : SimpleQPolicy F) (u : F) (k : nat)
    (es : env_state F) (act : action F) :
  select_action self u k es = Some (act, self') →
  ∃ s a,
    _discretize_state self es = Some s
    ∧ (if u <? epsilon self then a = k
       else ∃ row, q_row (q_table self) s = Some row ∧ np_argmax row = Some a)
    ∧ self' = with_pending self (q_table self) (Some s) (Some a)
    ∧ act = (if (a =? 0)%nat then action_none
             else if (a =? 1)%nat then action_add else action_remove).
Proof.
  unfold select_action.
  destruct (_discretize_state self es) as [s|]; simpl; [|discriminate].
  destruct (u <? epsilon self).
  - simpl. intros [= <- <-]. exists s, k. auto.
  - destruct (q_row (q_table self) s) as [row|] eqn:Hrow; simpl; [|discriminate].
    destruct (np_argmax row) as [a|] eqn:Ha; simpl; [|discriminate].
    intros [= <- <-]. exists s, a. eauto 6.
Qed.
End ShapeFacts.

(** X23.  The state [_discretize_state] returns lies inside the
    table: the price bucket is at most [num_price_buckets - 1] (and 0
    when there are no price buckets) and the time bucket is the step
    modulo [num_time_buckets], hence below it. *)
Theorem discretize_state_in_range {F : Type} `{Num F}
    (self : SimpleQPolicy F) (es : env_state F) (s : nat * nat) :
  _discretize_state self es = Some s →
  (s.1 <= num_price_buckets self - 1)%nat
  ∧ (s.2 < num_time_buckets self)%nat
  ∧ s.2 = (step_index es mod num_time_buckets self)%nat.
Proof.
  unfold _discretize_state.
  destruct (floordiv_int _ _) as [bucket|]; simpl; [|discriminate].
  destruct (Nat.eqb_spec (num_time_buckets self) 0) as [HT|HT]; [discriminate|].
  intros [= <-]. simpl.
  split; [lia|]. split; [apply Nat.mod_upper_bound, HT | reflexivity].
Qed.

Lemma discretize_state_in_range_witness :
  _discretize_state Scenario.policy_5_10 Scenario.obs_1 = Some (4%nat, 3%nat)
  ∧ (4 <= num_price_buckets Scenario.policy_5_10 - 1)%nat
  ∧ (3 < num_time_buckets Scenario.policy_5_10)%nat.
Proof.
  split; [vm_compute; reflexivity|].
  destruct (discretize_state_in_range Scenario.policy_5_10 Scenario.obs_1
              (4%nat, 3%nat)) as (H1 & H2 & _); [vm_compute; reflexivity|].
  split; [exact H1 | exact H2].
Defined.

(** X24.  The Q-table keeps the shape
    [(num_price_buckets, num_time_buckets, 3)]: a new policy has it,
    and neither [select_action] nor [update_q] changes it (nor the
    bucket counts). *)
Theorem q_table_keeps_shape {F : Type} `{Num F} (self : SimpleQPolicy F) :
  (∀ P T al ga ep, well_shaped (new_policy P T al ga ep))
  ∧ (well_shaped self →
     (∀ u k es a self', select_action self u k es = Some (a, self') →
        well_shaped self' ∧ q_table self' = q_table self)
     ∧ (∀ reward es done self', update_q self reward es done = Some self' →
          well_shaped self'
          ∧ num_price_buckets self' = num_price_buckets self
          ∧ num_time_buckets self' = num_time_buckets self)).
Proof.
  split.
  - intros P T al ga ep. apply new_policy_shape.
  - intros Hshape. split.
    + intros u k es a self' Hsel.
      apply select_action_cases in Hsel as (s & i & _ & _ & -> & _).
      split; [exact Hshape | reflexivity].
    + intros reward es done self'. unfold update_q.
      destruct (last_state self) as [s|]; [|intros [= <-]; auto].
      destruct (last_action self) as [a|]; simpl; [|discriminate].
      destruct (q_target self reward es done) as [target|]; simpl; [|discriminate].
      destruct (q_get (q_table self) s a) as [old|]; simpl; [|discriminate].
      intros [= <-]. split; [|split; reflexivity].
      unfold well_shaped. simpl. apply q_set_shape. exact Hshape.
Qed.

Lemma q_table_keeps_shape_witness :
  well_shaped Scenario.policy_5_10 ∧ well_shaped Scenario.policy_pending.
Proof.
  destruct (q_table_keeps_shape Scenario.policy_5_10) as [Hnew Hkeep].
  pose proof (Hnew 5%nat 10%nat (dec 1 1) (dec 95 2) (dec 1 1)) as Hshape.
  split; [exact Hshape|].
  destruct (Hkeep Hshape) as [Hsel _].
  exact (proj1 (Hsel (dec 5 2) 2%nat Scenario.obs_1 action_remove
                  Scenario.policy_pending eq_refl)).
Defined.

(** X25.  On a policy whose table has its shape and at least one
    price bucket, a selection followed by an update raises no
    [IndexError]: whenever the two observations can be discretized and
    the random action index is one of 0, 1, 2, [select_action] returns
    an action and [update_q] then returns. *)
Theorem select_then_update_in_bounds {F : Type} `{Num F}
    (self : SimpleQPolicy F) (u : F) (k : nat) (es es' : env_state F)
    (reward : F) (done : bool) :
  well_shaped self →
  (1 <= num_price_buckets self)%nat →
  (k < 3)%nat →
  is_Some (_discretize_state self es) →
  is_Some (_discretize_state self es') →
  ∃ a self1 self2,
    select_action self u k es = Some (a, self1)
    ∧ update_q self1 reward es' done = Some self2
    ∧ last_state self2 = None.
Proof.
  intros Hshape HP Hk [s Hs] [s' Hs'].
  pose proof (discretize_range _ _ _ Hs) as (Hs1 & Hs2 & _).
  pose proof (discretize_range _ _ _ Hs') as (Hs1' & Hs2' & _).
  destruct (well_shaped_row self s Hshape) as (q0 & q1 & q2 & Hrow); [lia | lia|].
  destruct (well_shaped_row self s' Hshape) as (p0 & p1 & p2 & Hrow'); [lia | lia|].
  assert (Ha : ∃ a, (if u <? epsilon self then Some k
                     else row ← q_row (q_table self) s; np_argmax row)%num = Some a
                    ∧ (a < 3)%nat).
  { destruct (u <? epsilon self)%num; [eauto|].
    rewrite Hrow. simpl. eexists. split; [reflexivity|].
    apply (np_argmax_range [q0; q1; q2]). reflexivity. }
  destruct Ha as (a & Ha & Ha3).
  unfold select_action. rewrite Hs. simpl. rewrite Ha. simpl.
  eexists _, _. unfold update_q. cbn [last_state last_action with_pending mbind option_bind].
  assert (Ht : is_Some (q_target
                          (with_pending self (q_table self) (Some s) (Some a))
                          reward es' done)).
  { unfold q_target. destruct done; [eauto|].
    change (_discretize_state (with_pending self (q_table self) (Some s) (Some a)) es')
      with (_discretize_state self es').
    rewrite Hs'. simpl. rewrite Hrow'. simpl. eauto. }
  destruct Ht as [target ->]. simpl.
  assert (Hold : is_Some (q_get (q_table self) s a)).
  { unfold q_get. rewrite Hrow. simpl.
    apply lookup_lt_is_Some_2. simpl. lia. }
  destruct Hold as [old ->]. simpl. eauto.
Qed.

Lemma select_then_update_in_bounds_witness :
  ∃ a self1 self2,
    select_action Scenario.policy_5_10 (dec 5 1) 2 Scenario.obs_1 = Some (a, self1)
    ∧ update_q self1 (dec 15 1) Scenario.obs_2 false = Some self2
    ∧ last_state self2 = None.
Proof.
  apply (select_then_update_in_bounds Scenario.policy_5_10 (dec 5 1) 2
           Scenario.obs_1 Scenario.obs_2 (dec 15 1) false).
  - apply new_policy_shape.
  - simpl. lia.
  - lia.
  - vm_compute. eauto.
  - vm_compute. eauto.
Defined.

(** X26.  An untrained policy that exploits does nothing: on a new
    policy with at least one price bucket, whenever the observation can
    be discretized and the draw does not fall below [epsilon],
    [select_action] returns the action of type "none" and records
    action 0, the table being all zeros. *)
Theorem fresh_policy_exploits_none {F : Type} `{OrderLaws F}
    (P T : nat) (al ga ep u : F) (k : nat) (es : env_state F) :
  (u <? ep)%num = false →
  (1 <= P)%nat →
  is_Some (_discretize_state (new_policy P T al ga ep) es) →
  ∃ self', select_action (new_policy P T al ga ep) u k es = Some (action_none, self')
           ∧ last_action self' = Some 0%nat.
Proof.
  intros Hu HP [s Hs].
  pose proof (discretize_range _ _ _ Hs) as (Hs1 & Hs2 & _). simpl in Hs1, Hs2.
  unfold select_action. rewrite Hs. cbn [mbind option_bind epsilon new_policy q_table].
  rewrite Hu. unfold q_row.
  rewrite lookup_replicate_2 by lia. cbn [mbind option_bind].
  rewrite lookup_replicate_2 by lia. cbn [mbind option_bind replicate np_argmax argmax_from].
  unfold isnan. rewrite zero_eqb_zero, (eqb_leb _ _ zero_eqb_zero).
  cbn [negb]. eexists. split; reflexivity.
Qed.

Lemma fresh_policy_exploits_none_witness :
  ∃ self', select_action Scenario.policy_5_10 (dec 5 1) 2 Scenario.obs_1
           = Some (action_none, self')
           ∧ last_action self' = Some 0%nat.
Proof.
  apply (fresh_policy_exploits_none 5 10 (dec 1 1) (dec 95 2) (dec 1 1) (dec 5 1) 2
           Scenario.obs_1).
  - vm_compute. reflexivity.
  - lia.
  - vm_compute. eauto.
Defined.

Module Binary64Scan.
Import Binary64Facts.

Lemma SFcompare_Eq_Lt_trans (x y z : spec_float) :
  SFcompare x y = Some Eq → SFcompare y z = Some Lt → SFcompare x z = Some Lt.
Proof.
  destruct x as [sx|sx| |sx mx ex], y as [sy|sy| |sy my ey], z as [sz|sz| |sz mz ez];
    simpl; try destruct sx; try destruct sy; try destruct sz; try congruence.
  all: repeat match goal with
         | |- context [Pos.compare_cont Eq ?a ?b] =>
             change (Pos.compare_cont Eq a b) with (Pos.compare a b)
         end.
  all: destruct (Z.compare_spec ex ey), (Z.compare_spec ey ez), (Z.compare_spec ex ez);
    try congruence; try lia.
  all: destruct (Pos.compare_spec mx my), (Pos.compare_spec my mz),
         (Pos.compare_spec mx mz); simpl; try congruence; try lia.
Qed.

(** Two numbers compare unless one of them is NaN. *)
Lemma SFcompare_None (x y : spec_float) :
  SFcompare x y = None → SFcompare x x = None ∨ SFcompare y y = None.
Proof.
  destruct x as [sx|sx| |sx mx ex], y as [sy|sy| |sy my ey]; simpl; auto;
    try destruct sx; try destruct sy; try discriminate.
  all: destruct (ex ?= ey); try discriminate.
  all: destruct (Pos.compare_cont Eq mx my); discriminate.
Qed.

Lemma float_leb_refl (x : float) : isnan x = false → (x <=? x)%float = true.
Proof.
  unfold isnan. cbn [feqb float_Num].
  rewrite FloatAxioms.eqb_spec, FloatAxioms.leb_spec. unfold SFeqb, SFleb.
  destruct (SFcompare (Prim2SF x) (Prim2SF x)) as [[]|]; simpl; congruence.
Qed.

Lemma float_leb_total (x y : float) :
  isnan x = false → isnan y = false →
  (x <=? y)%float = false → (y <? x)%float = true.
Proof.
  unfold isnan. cbn [feqb float_Num].
  rewrite !FloatAxioms.eqb_spec, FloatAxioms.leb_spec, FloatAxioms.ltb_spec.
  unfold SFeqb, SFleb, SFltb. intros Hx Hy.
  rewrite (SFcompare_antisym (Prim2SF x) (Prim2SF y)).
  destruct (SFcompare (Prim2SF x) (Prim2SF y)) as [[]|] eqn:Hxy; simpl; try congruence.
  destruct (SFcompare_None _ _ Hxy) as [E|E]; rewrite E in *; discriminate.
Qed.

Lemma float_leb_ltb_trans (x y z : float) :
  (x <=? y)%float = true → (y <? z)%float = true → (x <? z)%float = true.
Proof.
  rewrite FloatAxioms.leb_spec, !FloatAxioms.ltb_spec. unfold SFleb, SFltb.
  intros Hxy Hyz.
  assert (Hlt : SFcompare (Prim2SF y) (Prim2SF z) = Some Lt)
    by (destruct (SFcompare (Prim2SF y) (Prim2SF z)) as [[]|]; congruence).
  destruct (SFcompare (Prim2SF x) (Prim2SF y)) as [[]|] eqn:Hc; try discriminate.
  - rewrite (SFcompare_Eq_Lt_trans _ _ _ Hc Hlt). reflexivity.
  - rewrite (SFcompare_Lt_trans _ _ _ Hc Hlt). reflexivity.
Qed.

Lemma float_ltb_leb (x y : float) : (x <? y)%float = true → (x <=? y)%float = true.
Proof.
  rewrite FloatAxioms.ltb_spec, FloatAxioms.leb_spec. unfold SFltb, SFleb.
  destruct (SFcompare (Prim2SF x) (Prim2SF y)) as [[]|]; congruence.
Qed.
End Binary64Scan.

#[export] Instance float_ScanLaws : ScanLaws float.
Proof.
  split.
  - exact Binary64Scan.float_leb_refl.
  - exact Binary64Scan.float_leb_total.
  - exact Binary64Scan.float_leb_ltb_trans.
  - exact Binary64Scan.float_ltb_leb.
Qed.

#[export] Instance Qc_ScanLaws : ScanLaws Qc.
Proof.
  split; cbn [fleb fltb Qc_Num].
  - intros x _. apply ExactFacts.leb_le, Qcle_refl.
  - intros x y _ _ Hxy. apply ExactFacts.ltb_lt, ExactFacts.leb_gt, Hxy.
  - intros x y z Hxy Hyz. apply ExactFacts.leb_le in Hxy.
    apply ExactFacts.ltb_lt in Hyz. apply ExactFacts.ltb_lt.
    exact (Qcle_lt_trans _ _ _ Hxy Hyz).
  - intros x y Hxy. apply ExactFacts.ltb_lt in Hxy.
    apply ExactFacts.leb_le, Qclt_le_weak, Hxy.
Qed.

Section ArgmaxFacts.
Context {F : Type} `{ScanLaws F}.
Local Open Scope num_scope.

(** The scan of [np.argmax] over a row without NaN, with the part of
    the row already read in [pre]: it ends on the first position that
    holds the greatest entry. *)
Lemma argmax_from_first_max (row : list F) :
  ∀ (pre : list F) (mp : F) (best : nat),
    Forall (λ x, isnan x = false) (pre ++ row) →
    pre !! best = Some mp →
    (∀ j x, pre !! j = Some x →
            (x <=? mp) = true ∧ ((j < best)%nat → (x <? mp) = true)) →
    ∃ v, (pre ++ row) !! argmax_from mp best (length pre) row = Some v
         ∧ ∀ j x, (pre ++ row) !! j = Some x →
                  (x <=? v) = true
                  ∧ ((j < argmax_from mp best (length pre) row)%nat → (x <? v) = true).
Proof.
  induction row as [|x row IH]; intros pre mp best Hnan Hbest Hinv.
  - rewrite app_nil_r. exists mp. split; [exact Hbest | exact Hinv].
  - cbn [argmax_from].
    assert (Hx : isnan x = false).
    { rewrite Forall_app, Forall_cons in Hnan. apply Hnan. }
    assert (Hmp : isnan mp = false).
    { rewrite Forall_forall in Hnan. apply Hnan.
      apply elem_of_app. left. eapply list_elem_of_lookup_2, Hbest. }
    rewrite Hx.
    replace (pre ++ x :: row) with ((pre ++ [x]) ++ row) in *
      by (rewrite <- app_assoc; reflexivity).
    replace (S (length pre)) with (length (pre ++ [x]))
      by (rewrite length_app; simpl; lia).
    pose proof (lookup_lt_Some _ _ _ Hbest) as Hlt.
    destruct (x <=? mp) eqn:Hle; cbn [negb].
    + apply IH; [exact Hnan| |].
      * rewrite lookup_app_l by exact Hlt. exact Hbest.
      * intros j y Hj. apply lookup_app_Some in Hj as [Hj|[Hge Hj]].
        -- apply Hinv, Hj.
        -- apply list_lookup_singleton_Some in Hj as [_ <-].
           split; [exact Hle | lia].
    + pose proof (scan_leb_total _ _ Hx Hmp Hle) as Hgt.
      apply IH; [exact Hnan| |].
      * rewrite lookup_app_r by lia. rewrite Nat.sub_diag. reflexivity.
      * intros j y Hj. apply lookup_app_Some in Hj as [Hj|[Hge Hj]].
        -- destruct (Hinv _ _ Hj) as [Hy _].
           pose proof (scan_leb_ltb_trans _ _ _ Hy Hgt) as Hyx.
           split; [apply scan_ltb_leb, Hyx | intros _; exact Hyx].
        -- apply list_lookup_singleton_Some in Hj as [Hj <-].
           split; [apply scan_leb_refl, Hx | lia].
Qed.
End ArgmaxFacts.

(** X27.  A policy that exploits picks the first action with the
    greatest Q-value at the discretized observation: the recorded state
    is the discretized observation, and, when its row holds no NaN, the
    recorded action indexes an entry of that row that no entry exceeds
    and that every earlier entry is strictly below. *)
Theorem greedy_picks_first_maximum {F : Type} `{ScanLaws F}
    (self self' : SimpleQPolicy F) (u : F) (k : nat)
    (es : env_state F) (act : action F) :
  (u <? epsilon self)%num = false →
  select_action self u k es = Some (act, self') →
  ∃ s a row v,
    _discretize_state self es = Some s
    ∧ last_state self' = Some s ∧ last_action self' = Some a
    ∧ q_row (q_table self) s = Some row ∧ row !! a = Some v
    ∧ (Forall (λ x, isnan x = false) row →
       ∀ j x, row !! j = Some x →
              (x <=? v)%num = true ∧ ((j < a)%nat → (x <? v)%num = true)).
Proof.
  intros Hu Hsel.
  apply select_action_cases in Hsel as (s & a & Hs & Ha & -> & _).
  rewrite Hu in Ha. destruct Ha as (row & Hrow & Ha).
  exists s, a, row. destruct row as [|x row]; [discriminate Ha|].
  cbn [np_argmax] in Ha. injection Ha as <-.
  destruct (isnan x) eqn:Hx.
  - exists x. split; [exact Hs|]. split; [reflexivity|]. split; [reflexivity|].
    split; [exact Hrow|]. split; [reflexivity|].
    intros Hnan. apply Forall_cons in Hnan as [Hx' _]. congruence.
  - pose proof (argmax_from_range row x 0 1) as Hrange.
    destruct (lookup_lt_is_Some_2 (x :: row) (argmax_from x 0 1 row)) as [v Hv];
      [simpl; lia|].
    exists v. split; [exact Hs|]. split; [reflexivity|]. split; [reflexivity|].
    split; [exact Hrow|]. split; [exact Hv|].
    intros Hnan.
    destruct (argmax_from_first_max row [x] x 0 Hnan eq_refl) as (v' & Hv' & Hmax).
    + intros [|j] y Hj; [|discriminate Hj]. injection Hj as <-.
      split; [apply scan_leb_refl, Hx | lia].
    + change ([x] ++ row) with (x :: row) in Hv', Hmax.
      change (length [x]) with 1%nat in Hv', Hmax.
      rewrite Hv in Hv'. injection Hv' as <-. exact Hmax.
Qed.

Lemma greedy_picks_first_maximum_witness :
  ∃ s a row v,
    _discretize_state Cases.policy_trained Cases.obs_cheap = Some s
    ∧ Some (0%nat, 0%nat) = Some s ∧ Some 1%nat = Some a
    ∧ q_row (q_table Cases.policy_trained) s = Some row ∧ row !! a = Some v
    ∧ (Forall (λ x, isnan x = false) row →
       ∀ j x, row !! j = Some x →
              (x <=? v)%num = true ∧ ((j < a)%nat → (x <? v)%num = true)).
Proof.
  exact (greedy_picks_first_maximum Cases.policy_trained
           (with_pending Cases.policy_trained
              (q_table Cases.policy_trained) (Some (0%nat, 0%nat)) (Some 1%nat))
           1%float 0 Cases.obs_cheap action_add eq_refl eq_refl).
Defined.

(** X28.  What an RL liquidity provider does when it acts: it keeps
    its name and the policy's table and parameters, records the state
    and the action index it chose, and returns the fixed action of that
    index ("none", a deposit of (10, 10), or the removal of the fraction
    0.3), which carries the keys [step] reads. *)
Theorem RLLiquidityProvider_act_spec {F : Type} `{Num F}
    (self self' : RLLiquidityProvider F) (u : F) (k : nat) (es : env_state F)
    (a : action F) :
  RLLiquidityProvider_act self u k es = Some (a, self') →
  rl_name self' = rl_name self
  ∧ q_table (policy self') = q_table (policy self)
  ∧ action_ok a = true
  ∧ ∃ s i,
      _discretize_state (policy self) es = Some s
      ∧ last_state (policy self') = Some s
      ∧ last_action (policy self') = Some i
      ∧ ((u <? epsilon (policy self))%num = true → i = k)
      ∧ a = match i with
            | 0%nat => action_none
            | 1%nat => action_add
            | _ => action_remove
            end.
Proof.
  unfold RLLiquidityProvider_act.
  destruct (select_action (policy self) u k es) as [[a0 p]|] eqn:Hsel; simpl;
    [|discriminate].
  intros [= <- <-]. simpl.
  apply select_action_cases in Hsel as (s & i & Hs & Hi & -> & ->).
  split; [reflexivity|]. split; [reflexivity|].
  split; [destruct i as [|[|i]]; reflexivity|].
  exists s, i. repeat split; try assumption.
  - intros Hu. rewrite Hu in Hi. exact Hi.
  - destruct i as [|[|i]]; reflexivity.
Qed.

Lemma RLLiquidityProvider_act_spec_witness :
  match RLLiquidityProvider_act Cases.rl_lp (dec 5 2) 2 Scenario.obs_1 with
  | Some (a, self') => rl_name self' = "RL_LP"%string ∧ action_ok a = true
  | None => False
  end.
Proof.
  pose proof (RLLiquidityProvider_act_spec Cases.rl_lp) as T.
  destruct (RLLiquidityProvider_act Cases.rl_lp (dec 5 2) 2 Scenario.obs_1)
    as [[a self']|] eqn:E.
  - destruct (T self' _ _ _ a E) as (Hn & _ & Hok & _).
    split; [exact Hn | exact Hok].
  - vm_compute in E. discriminate.
Defined.

(* ================================================================== *)
(** ** The synthetic price series *)

Section SeriesFacts.
Context {F : Type} `{Num F}.
Local Open Scope num_scope.

Lemma price_path_length (fexp : F → F) (growth volatility : F) (shocks : nat → F)
    (k : nat) :
  ∀ t previous, length (price_path fexp growth volatility shocks t k previous) = k.
Proof.
  induction k as [|k IH]; intros t previous; simpl; [reflexivity|].
  rewrite IH. reflexivity.
Qed.

(** Each price is the one before it times the exponential of the
    step's growth. *)
Lemma price_path_next (fexp : F → F) (growth volatility : F) (shocks : nat → F)
    (k : nat) :
  ∀ t previous i p,
    (previous :: price_path fexp growth volatility shocks t k previous) !! i = Some p →
    (previous :: price_path fexp growth volatility shocks t k previous) !! S i
    = if decide (i < k)%nat
      then Some (p * fexp (growth + volatility * shocks (t + i)%nat))
      else None.
Proof.
  induction k as [|k IH]; intros t previous i p Hi.
  - destruct i; [|discriminate Hi]. reflexivity.
  - destruct i as [|i].
    + injection Hi as <-. rewrite decide_True by lia.
      rewrite Nat.add_0_r. reflexivity.
    + cbn [price_path] in *.
      refine (eq_trans (IH (S t) _ i p Hi) _).
      replace (S t + i)%nat with (t + S i)%nat by lia.
      destruct (decide (i < k)%nat).
      * rewrite decide_True by lia. reflexivity.
      * rewrite decide_False by lia. reflexivity.
Qed.
End SeriesFacts.

(** X29.  [generate_synthetic_price_series] raises for [num_steps = 0]
    (the assignment [prices[0] = start_price] is out of range) and
    returns the one price [start_price] for [num_steps = 1].  For
    [num_steps >= 2] it raises when the square [volatility ** 2]
    overflows, and otherwise returns exactly [num_steps] prices, the
    first is [start_price], and each later one is its predecessor times
    [exp((drift - 0.5 * volatility ** 2) + volatility * shock)] with the
    shock drawn at that iteration. *)
Theorem price_series_shape {F : Type} `{Num F} (fexp : F → F) (fsquare : F → option F)
    (shocks : nat → F) (n : nat) (start_price drift volatility : F) :
  generate_synthetic_price_series fexp fsquare shocks 0 start_price drift volatility
    = None
  ∧ generate_synthetic_price_series fexp fsquare shocks 1 start_price drift volatility
    = Some [start_price]
  ∧ (fsquare volatility = None →
     generate_synthetic_price_series fexp fsquare shocks (S (S n)) start_price drift
       volatility = None)
  ∧ (∀ square, fsquare volatility = Some square →
       ∃ prices,
         generate_synthetic_price_series fexp fsquare shocks (S (S n)) start_price drift
           volatility = Some prices
         ∧ length prices = S (S n)
         ∧ prices !! 0%nat = Some start_price
         ∧ ∀ t p, prices !! t = Some p →
                  prices !! S t
                  = if decide (S t < S (S n))%nat
                    then Some (p * fexp ((drift - dec 5 1 * square)
                                         + volatility * shocks (S t)))%num
                    else None).
Proof.
  split; [reflexivity|]. split; [reflexivity|]. split.
  - intros Hsq. unfold generate_synthetic_price_series. rewrite Hsq. reflexivity.
  - intros square Hsq. unfold generate_synthetic_price_series. rewrite Hsq.
    cbn [mbind option_bind]. eexists. split; [reflexivity|].
    split; [simpl; rewrite price_path_length; reflexivity|].
    split; [reflexivity|].
    intros t p Ht. rewrite (price_path_next _ _ _ _ _ _ _ _ _ Ht).
    destruct (decide (t < S n)%nat).
    + rewrite decide_True by lia. reflexivity.
    + rewrite decide_False by lia. reflexivity.
Qed.

Lemma price_series_shape_witness :
  generate_synthetic_price_series (λ x, 1 + x)%float Cases.square_or_overflow
    (λ t, of_int (Z.of_nat t)) 2 1%float 0%float 0x1p+600%float = None
  ∧ ∃ prices,
      generate_synthetic_price_series (λ x, 1 + x)%float Cases.square_or_overflow
        (λ t, of_int (Z.of_nat t)) 2 1%float 0%float 0.5%float = Some prices
      ∧ length prices = 2%nat
      ∧ prices !! 1%nat = Some (1 * (1 + ((0 - dec 5 1 * 0.25) + 0.5 * 1)))%float.
Proof.
  destruct (price_series_shape (λ x, 1 + x)%float Cases.square_or_overflow
              (λ t, of_int (Z.of_nat t)) 0 1%float 0%float 0x1p+600%float)
    as (_ & _ & Hraise & _).
  split; [exact (Hraise eq_refl)|].
  destruct (price_series_shape (λ x, 1 + x)%float Cases.square_or_overflow
              (λ t, of_int (Z.of_nat t)) 0 1%float 0%float 0.5%float)
    as (_ & _ & _ & Hok).
  destruct (Hok 0.25%float eq_refl) as (prices & Hgen & Hlen & H0 & Hnext).
  exists prices. split; [exact Hgen|]. split; [exact Hlen|].
  exact (Hnext 0%nat 1%float H0).
Defined.

(** X30.  In exact arithmetic, with zero drift and zero volatility
    the series is constant: every one of the [num_steps] prices is
    [start_price], whatever the shocks (for an exponential with
    [exp 0 = 1] and a square with [0 ** 2 = 0]). *)
Theorem price_series_constant (fexp : Qc → Qc) (fsquare : Qc → option Qc)
    (shocks : nat → Qc) (n : nat) (start_price : Qc) :
  fexp 0%Qc = 1%Qc → fsquare 0%Qc = Some 0%Qc →
  generate_synthetic_price_series fexp fsquare shocks (S n) start_price zero zero
  = Some (replicate (S n) start_price).
Proof.
  intros Hexp Hsq. unfold generate_synthetic_price_series.
  destruct n as [|n]; [reflexivity|].
  rewrite ExactFacts.zero_is_0, Hsq. cbn [mbind option_bind replicate]. do 2 f_equal.
  assert (Hpath : ∀ k t g, g = 0%Qc →
            price_path fexp g 0%Qc shocks t k start_price = replicate k start_price).
  { intros k t g ->. revert t. induction k as [|k IH]; intros t; [reflexivity|].
    cbn [price_path replicate fmul fadd Qc_Num].
    replace (0 + 0 * shocks t)%Qc with 0%Qc by ring.
    rewrite Hexp. replace (start_price * 1)%Qc with start_price by ring.
    rewrite IH. reflexivity. }
  apply (Hpath (S n)). cbn [fsub fmul Qc_Num]. ring.
Qed.

Lemma price_series_constant_witness :
  generate_synthetic_price_series (λ x, 1 + x)%Qc (λ x, Some (x * x)%Qc)
    (λ t, of_int (Z.of_nat t)) 3 (dec 12 1) zero zero
  = Some [dec 12 1; dec 12 1; dec 12 1].
Proof.
  apply (price_series_constant (λ x, 1 + x)%Qc (λ x, Some (x * x)%Qc)
           (λ t, of_int (Z.of_nat t)) 2 (dec 12 1)).
  - apply Qc_is_canon. reflexivity.
  - apply (f_equal Some). apply Qc_is_canon. reflexivity.
Defined.
